(** * libspark: block validation and the cascaded biquad (SOS) kernel

    A shallow embedding of [src/include/spark/block.h], [src/lib/block.c],
    [src/include/spark/iir_filter.h] and
    [src/lib/iir-filter/iir_sosfilt_f32.c], followed by the properties the
    design document states about them.

    Conventions.
    - [uint32_t] and [int] values are [Z]; where the C code can wrap around
      (the plane offset [chan * n_frames]) the reduction modulo [2^32] is
      written out.
    - A pointer to a descriptor is [None] for [NULL], and otherwise carries
      the location and the pointee.
    - Sample memory is a finite map from cell addresses to single-precision
      floats; one cell is one [float], a data pointer is a cell address and
      [0] is the null pointer.  A load or store outside the map is a fault.
    - [float] is IEEE 754 binary32 (24-bit significand, [emax = 128]) with
      round-to-nearest-even, each operation rounded on its own. *)

From Stdlib Require Import ZArith Lia Bool.
From Stdlib Require Import Floats.SpecFloat.
From stdpp Require Import gmap list.

Open Scope Z_scope.

(** ** Build configuration

    [SPARK_ABI_VERSION] comes from [<spark/version.h>], which is generated at
    build time, [sizeof(spark_block_t)] from the target ABI, and [NDEBUG]
    decides whether [assert] is compiled in.  The development is parametric
    in the three. *)

Class Build := {
  SPARK_ABI_VERSION : Z;
  sizeof_spark_block_t : Z;
  NDEBUG : bool
}.

(** ** [spark/block.h] *)

Module Block.

(** *** [enum spark_buffer_flags] *)

Definition SPARK_FMT_INVALID : Z := 0x00.
Definition SPARK_FMT_I16 : Z := 0x01.
Definition SPARK_FMT_I32 : Z := 0x02.
Definition SPARK_FMT_F32 : Z := 0x03.
Definition SPARK_FMT_F64 : Z := 0x04.
Definition SPARK_FMT_MASK : Z := 0x0F.

Definition SPARK_LAYOUT_INVALID : Z := Z.shiftl 0x0 4.
Definition SPARK_LAYOUT_INTERLEAVED : Z := Z.shiftl 0x1 4.
Definition SPARK_LAYOUT_PLANAR : Z := Z.shiftl 0x2 4.
Definition SPARK_LAYOUT_MASK : Z := Z.shiftl 0x0F 4.

(** *** [enum spark_block_type] *)

Definition SPARK_BLOCK_INVALID : Z := 0.
Definition SPARK_BLOCK_PROCESS : Z := Z.shiftl 0x1 8.
Definition SPARK_BLOCK_CONVERT : Z := Z.shiftl 0x2 8.
Definition SPARK_BLOCK_SOURCE : Z := Z.shiftl 0x3 8.
Definition SPARK_BLOCK_SINK : Z := Z.shiftl 0x4 8.
Definition SPARK_BLOCK_TYPE_MASK : Z := Z.shiftl 0x7 8.

(** *** [enum spark_block_error] *)

Definition SPARK_NOERROR : Z := 0.
Definition SPARK_ERR_INVALID_PARAM : Z := 1.
Definition SPARK_ERR_INVALID_SIZE : Z := 2.
Definition SPARK_ERR_INVALID_ABI : Z := 3.
Definition SPARK_ERR_INVALID_INPUT : Z := 4.
Definition SPARK_ERR_INVALID_OUTPUT : Z := 5.
Definition SPARK_ERR_INVALID_BLOCK : Z := 6.

(** *** Descriptors *)

Record spark_buffer_t := {
  base : Z;        (* void *base; 0 is NULL *)
  channels : Z;    (* uint32_t *)
  frames : Z;      (* uint32_t *)
  flags : Z        (* uint32_t *)
}.

Record spark_block_t := {
  abi_version : Z;
  struct_size : Z;
  input : spark_buffer_t;
  output : spark_buffer_t
}.

(** The location a [const spark_buffer_t *] designates: the [input] or the
    [output] member of the block at some address, or a descriptor that
    stands on its own. *)
Inductive buffer_loc :=
  | InputOf (blk : Z)
  | OutputOf (blk : Z)
  | Standalone (addr : Z).

#[global] Instance buffer_loc_eq_dec : EqDecision buffer_loc.
Proof. solve_decision. Defined.

(** [const spark_buffer_t *]: [None] is [NULL]. *)
Definition buffer_ptr : Type := option (buffer_loc * spark_buffer_t).

(** [a == b] on descriptor pointers. *)
Definition buffer_ptr_eqb (a b : buffer_ptr) : bool :=
  match a, b with
  | None, None => true
  | Some (la, _), Some (lb, _) => bool_decide (la = lb)
  | _, _ => false
  end.

(** [const void *p_block]: [None] is [NULL], otherwise the address and the
    block stored there. *)
Definition block_ptr : Type := option (Z * spark_block_t).

(** *** Flag codec *)

Definition spark_buffer_get_layout (flags : Z) : Z :=
  Z.land flags SPARK_LAYOUT_MASK.

Definition spark_buffer_get_format (flags : Z) : Z :=
  Z.land flags SPARK_FMT_MASK.

Definition spark_block_get_type (flags : Z) : Z :=
  Z.land flags SPARK_BLOCK_TYPE_MASK.

Definition spark_buffer_bytes_per_sample (buf : buffer_ptr) : Z :=
  match buf with
  | None => 0
  | Some (_, b) =>
      let fmt := spark_buffer_get_format (flags b) in
      if fmt =? SPARK_FMT_I16 then 2
      else if fmt =? SPARK_FMT_I32 then 4
      else if fmt =? SPARK_FMT_F32 then 4
      else if fmt =? SPARK_FMT_F64 then 8
      else 0
  end.

(** *** Descriptor predicates *)

Definition spark_buffer_is_similar (a b : buffer_ptr) : bool :=
  if buffer_ptr_eqb a b then true
  else
    match a, b with
    | Some (_, a), Some (_, b) =>
        (spark_buffer_get_format (flags a) =? spark_buffer_get_format (flags b))
        && (spark_buffer_get_layout (flags a) =? spark_buffer_get_layout (flags b))
        && (channels a =? channels b)
        && (frames a =? frames b)
    | _, _ => false
    end.

Definition spark_buffer_is_valid (buf : buffer_ptr) : bool :=
  match buf with
  | None => false
  | Some (_, b) => negb (base b =? 0) && (0 <? channels b) && (0 <? frames b)
  end.

Definition spark_buffer_check_type (buf : buffer_ptr) (fmt layout : Z) : bool :=
  match buf with
  | None => false
  | Some (_, b) =>
      (spark_buffer_get_format (flags b) =? fmt)
      && (spark_buffer_get_layout (flags b) =? layout)
  end.

(** The same two predicates as propositions on the descriptor: a non-null
    base with a non-zero shape, and the format and layout that the
    required flags name. *)
Definition valid_buffer (b : spark_buffer_t) : Prop :=
  base b ≠ 0 ∧ 0 < channels b ∧ 0 < frames b.

Definition has_type (b : spark_buffer_t) (required : Z) : Prop :=
  spark_buffer_get_format (flags b) = spark_buffer_get_format required
  ∧ spark_buffer_get_layout (flags b) = spark_buffer_get_layout required.

(** ** [block.c]: [spark_block_validate] *)

Section Validate.
Context `{Build}.

Definition spark_block_validate (p_block : block_ptr) (flags : Z) : Z :=
  match p_block with
  | None => SPARK_ERR_INVALID_PARAM
  | Some (addr, block) =>
    if struct_size block <? sizeof_spark_block_t then SPARK_ERR_INVALID_SIZE
    else if negb (abi_version block =? SPARK_ABI_VERSION) then SPARK_ERR_INVALID_ABI
    else
      let req_fmt := spark_buffer_get_format flags in
      let req_layout := spark_buffer_get_layout flags in
      let block_type := spark_block_get_type flags in
      let p_input : buffer_ptr := Some (InputOf addr, input block) in
      let p_output : buffer_ptr := Some (OutputOf addr, output block) in
      if (req_fmt =? SPARK_FMT_INVALID) || (req_layout =? SPARK_LAYOUT_INVALID)
         || (block_type =? SPARK_BLOCK_INVALID)
      then SPARK_ERR_INVALID_PARAM
      else if block_type =? SPARK_BLOCK_PROCESS then
        if negb (spark_buffer_is_similar p_input p_output) then SPARK_ERR_INVALID_BLOCK
        else if negb (spark_buffer_is_valid p_input) then SPARK_ERR_INVALID_INPUT
        else if negb (spark_buffer_is_valid p_output) then SPARK_ERR_INVALID_OUTPUT
        else if negb (spark_buffer_check_type p_input req_fmt req_layout)
        then SPARK_ERR_INVALID_INPUT
        else if negb (spark_buffer_check_type p_output req_fmt req_layout)
        then SPARK_ERR_INVALID_OUTPUT
        else SPARK_NOERROR
      else if block_type =? SPARK_BLOCK_CONVERT then
        if negb (spark_buffer_is_valid p_input) then SPARK_ERR_INVALID_INPUT
        else if negb (spark_buffer_is_valid p_output) then SPARK_ERR_INVALID_OUTPUT
        else if negb (spark_buffer_check_type p_input req_fmt req_layout)
        then SPARK_ERR_INVALID_INPUT
        else SPARK_NOERROR
      else if block_type =? SPARK_BLOCK_SOURCE then
        if negb (spark_buffer_is_valid p_output) then SPARK_ERR_INVALID_OUTPUT
        else if negb (spark_buffer_check_type p_output req_fmt req_layout)
        then SPARK_ERR_INVALID_OUTPUT
        else SPARK_NOERROR
      else if block_type =? SPARK_BLOCK_SINK then
        if negb (spark_buffer_is_valid p_input) then SPARK_ERR_INVALID_INPUT
        else if negb (spark_buffer_check_type p_input req_fmt req_layout)
        then SPARK_ERR_INVALID_INPUT
        else SPARK_NOERROR
      else SPARK_ERR_INVALID_BLOCK
  end.

(** The first four gates pass: the block is present, large enough, of the
    library's ABI, and the required flags name a format, a layout and a
    block type. *)
Definition passes_gates (p_block : block_ptr) (flags : Z) : Prop :=
  ∃ addr block,
    p_block = Some (addr, block)
    ∧ sizeof_spark_block_t ≤ struct_size block
    ∧ abi_version block = SPARK_ABI_VERSION
    ∧ spark_buffer_get_format flags ≠ SPARK_FMT_INVALID
    ∧ spark_buffer_get_layout flags ≠ SPARK_LAYOUT_INVALID
    ∧ spark_block_get_type flags ≠ SPARK_BLOCK_INVALID.

(** The rule of the design document for each block type, on the two
    descriptors of the block at [addr]. *)
Definition type_rules (addr : Z) (block : spark_block_t) (flags : Z) : bool :=
  let fmt := spark_buffer_get_format flags in
  let layout := spark_buffer_get_layout flags in
  let ty := spark_block_get_type flags in
  let i : buffer_ptr := Some (InputOf addr, input block) in
  let o : buffer_ptr := Some (OutputOf addr, output block) in
  if ty =? SPARK_BLOCK_PROCESS then
    spark_buffer_is_similar i o && spark_buffer_is_valid i && spark_buffer_is_valid o
    && spark_buffer_check_type i fmt layout && spark_buffer_check_type o fmt layout
  else if ty =? SPARK_BLOCK_CONVERT then
    spark_buffer_is_valid i && spark_buffer_check_type i fmt layout
    && spark_buffer_is_valid o
  else if ty =? SPARK_BLOCK_SOURCE then
    spark_buffer_is_valid o && spark_buffer_check_type o fmt layout
  else if ty =? SPARK_BLOCK_SINK then
    spark_buffer_is_valid i && spark_buffer_check_type i fmt layout
  else false.

End Validate.

(** A block with another output descriptor, and with another input
    descriptor. *)
Definition with_output (block : spark_block_t) (o : spark_buffer_t) : spark_block_t :=
  {| abi_version := abi_version block; struct_size := struct_size block;
     input := input block; output := o |}.

Definition with_input (block : spark_block_t) (i : spark_buffer_t) : spark_block_t :=
  {| abi_version := abi_version block; struct_size := struct_size block;
     input := i; output := output block |}.

End Block.

(** An example build: an LP64 target ([sizeof(spark_block_t) = 56]), ABI
    version 1, asserts compiled out. *)
Definition lp64_release : Build :=
  {| SPARK_ABI_VERSION := 1; sizeof_spark_block_t := 56; NDEBUG := true |}.

(** The same target with asserts compiled in. *)
Definition lp64_debug : Build :=
  {| SPARK_ABI_VERSION := 1; sizeof_spark_block_t := 56; NDEBUG := false |}.

(** ** Single-precision floats

    IEEE 754 binary32 on the Standard Library's [spec_float]: a signed zero,
    a signed infinity, a NaN, or [(-1)^s * m * 2^e].  Multiplication and
    addition round to nearest, ties to even. *)

Module F32.

Definition prec : Z := 24.
Definition emax : Z := 128.

Definition float : Type := spec_float.

#[global] Instance float_eq_dec : EqDecision float.
Proof. solve_decision. Defined.

Definition mul (x y : float) : float := SFmul prec emax x y.
Definition add (x y : float) : float := SFadd prec emax x y.

(** A value of the format: finite values have a canonical significand and an
    exponent in range. *)
Definition valid (x : float) : bool := valid_binary prec emax x.

Definition is_finite (x : float) : bool :=
  match x with
  | S754_zero _ | S754_finite _ _ _ => true
  | S754_infinity _ | S754_nan => false
  end.

Definition is_zero (x : float) : bool :=
  match x with
  | S754_zero _ => true
  | _ => false
  end.

Definition pos_zero : float := S754_zero false.   (* 0.0f *)
Definition neg_zero : float := S754_zero true.    (* -0.0f *)
Definition one : float := S754_finite false 8388608 (-23).   (* 1.0f *)
Definition pos_inf : float := S754_infinity false.
Definition nan : float := S754_nan.

End F32.

(** ** Sample memory and the outcome of running C code *)

Module Mem.

Abbreviation float := F32.float.
Abbreviation mem := (gmap Z F32.float).

(** What a call does: it returns, it touches a cell outside the memory, or
    an [assert] fails. *)
Inductive outcome (A : Type) : Type :=
  | Ok (a : A)
  | Fault
  | Aborted.
Arguments Ok {A} a.
Arguments Fault {A}.
Arguments Aborted {A}.

#[global] Instance outcome_ret : MRet outcome := λ A a, Ok a.
#[global] Instance outcome_bind : MBind outcome := λ A B f c,
  match c with
  | Ok a => f a
  | Fault => Fault
  | Aborted => Aborted
  end.

Definition load (m : mem) (p : Z) : outcome float :=
  match m !! p with
  | Some v => Ok v
  | None => Fault
  end.

Definition store (m : mem) (p : Z) (v : float) : outcome mem :=
  match m !! p with
  | Some _ => Ok (<[p := v]> m)
  | None => Fault
  end.

(** The cell [p] of the memory a call leaves, if it returns. *)
Definition peek (o : outcome mem) (p : Z) : option float :=
  match o with
  | Ok m => m !! p
  | _ => None
  end.

(** [assert(b)]: nothing with [NDEBUG], otherwise abort unless [b]. *)
Definition assert `{Build} (b : bool) : outcome unit :=
  if NDEBUG || b then Ok tt else Aborted.

End Mem.

(** ** [spark/iir_filter.h] and [iir_sosfilt_f32.c] *)

Module Sosfilt.
Import Block Mem.

Definition SPARK_SOSFILT_INDEPENDENT_SOS : Z := 0.
Definition SPARK_SOSFILT_SHARE_SOS : Z := 1.

Record spark_sosfilt_f32_t := {
  header : spark_block_t;
  coefficients : Z;     (* const float *; 0 is NULL *)
  states : Z;           (* float *; 0 is NULL *)
  n_stages : Z;         (* uint32_t *)
  flags : Z             (* uint32_t *)
}.

(** [spark_sosfilt_f32_t *]: [None] is [NULL]. *)
Definition sosfilt_ptr : Type := option (Z * spark_sosfilt_f32_t).

(** The instance pointer passed as [const void *] to the validator: the
    header is the first member. *)
Definition as_block_ptr (self : sosfilt_ptr) : block_ptr :=
  match self with
  | None => None
  | Some (addr, s) => Some (addr, header s)
  end.

(** [uint32_t] multiplication. *)
Definition mul_u32 (a b : Z) : Z := (a * b) mod 2 ^ 32.

(** The sample loop of [biquad_process_f32]: [n] iterations remain, [i] is
    the loop index. *)
Fixpoint biquad_loop (n : nat) (i : Z) (b0 b1 b2 a1 a2 : float)
    (output input : Z) (s1 s2 : float) (m : mem) : outcome (float * float * mem) :=
  match n with
  | O => Ok (s1, s2, m)
  | S n' =>
      x ← load m (input + i);
      let y := F32.add (F32.mul b0 x) s1 in
      let s1' := F32.add (F32.add (F32.mul b1 x) (F32.mul a1 y)) s2 in
      let s2' := F32.add (F32.mul b2 x) (F32.mul a2 y) in
      m' ← store m (output + i) y;
      biquad_loop n' (i + 1) b0 b1 b2 a1 a2 output input s1' s2' m'
  end.

Definition biquad_process_f32 (coeff state output input : Z) (frames : Z)
    (m : mem) : outcome mem :=
  b0 ← load m (coeff + 0);
  b1 ← load m (coeff + 1);
  b2 ← load m (coeff + 2);
  a1 ← load m (coeff + 3);
  a2 ← load m (coeff + 4);
  s1 ← load m (state + 0);
  s2 ← load m (state + 1);
  '(s1, s2, m) ← biquad_loop (Z.to_nat frames) 0 b0 b1 b2 a1 a2 output input s1 s2 m;
  m ← store m (state + 0) s1;
  store m (state + 1) s2.

(** The loop over the stages of one channel: [n] iterations remain; returns
    the two cursors and the memory. *)
Fixpoint stage_loop (n : nat) (coeff states out in_ : Z) (n_frames : Z)
    (m : mem) : outcome (Z * Z * mem) :=
  match n with
  | O => Ok (coeff, states, m)
  | S n' =>
      m' ← biquad_process_f32 coeff states out in_ n_frames m;
      stage_loop n' (coeff + 5) (states + 2) out out n_frames m'
  end.

(** The loop over the channels: [n] iterations remain, [chan] is the loop
    index, [coeff] and [states] are the cursors. *)
Fixpoint chan_loop (self : spark_sosfilt_f32_t) (n : nat) (chan : Z)
    (coeff states : Z) (m : mem) : outcome mem :=
  match n with
  | O => Ok m
  | S n' =>
      let n_frames := frames (input (header self)) in
      let share_sos := negb (Z.land (flags self) SPARK_SOSFILT_SHARE_SOS =? 0) in
      let in_ := base (input (header self)) + mul_u32 chan n_frames in
      let out := base (output (header self)) + mul_u32 chan n_frames in
      let coeff := if share_sos then coefficients self else coeff in
      '(coeff, states, m) ←
        stage_loop (Z.to_nat (n_stages self)) coeff states out in_ n_frames m;
      chan_loop self n' (chan + 1) coeff states m
  end.

(** The flags the kernel requires of its block:
    [SPARK_FMT_F32 | SPARK_LAYOUT_PLANAR | SPARK_BLOCK_PROCESS]. *)
Definition required_flags : Z :=
  Z.lor (Z.lor SPARK_FMT_F32 SPARK_LAYOUT_PLANAR) SPARK_BLOCK_PROCESS.

Section Kernel.
Context `{Build}.

Definition spark_sosfilt_f32 (self : sosfilt_ptr) (m : mem) : outcome mem :=
  _ ← assert (bool_decide (is_Some self));
  let status := spark_block_validate (as_block_ptr self) required_flags in
  _ ← assert (status =? SPARK_NOERROR);
  if negb (status =? SPARK_NOERROR) then Ok m
  else
    match self with
    | None => Ok m   (* not reached: a null [self] does not validate *)
    | Some (_, self) =>
        _ ← assert (negb (coefficients self =? 0) && negb (states self =? 0)
                    && (0 <? n_stages self));
        let n_chan := channels (input (header self)) in
        _ ← assert (negb (base (input (header self)) =? 0)
                    && negb (base (output (header self)) =? 0));
        chan_loop self (Z.to_nat n_chan) 0 (coefficients self) (states self) m
    end.

End Kernel.

End Sosfilt.

(** ** The filter on sample sequences, and memory layouts

    The recurrences of the design document, on lists of samples, and the
    predicates that relate a list to the cells of a memory. *)

Module Model.
Import Block Mem Sosfilt.

(** The five coefficients of one section, [{b0, b1, b2, -a1, -a2}]: the
    feedback terms are stored negated. *)
Record sos := {
  b0 : float;
  b1 : float;
  b2 : float;
  na1 : float;
  na2 : float
}.

Definition sos_cells (k : sos) : list float := [b0 k; b1 k; b2 k; na1 k; na2 k].
Definition state_cells (w : float * float) : list float := [w.1; w.2].

(** Transposed Direct-Form II, one section over a run of samples: the
    emitted samples and the final [{w1, w2}]. *)
Fixpoint biquad_run (k : sos) (w : float * float) (xs : list float)
    : list float * (float * float) :=
  match xs with
  | [] => ([], w)
  | x :: xs' =>
      let y := F32.add (F32.mul (b0 k) x) w.1 in
      let w1 := F32.add (F32.add (F32.mul (b1 k) x) (F32.mul (na1 k) y)) w.2 in
      let w2 := F32.add (F32.mul (b2 k) x) (F32.mul (na2 k) y) in
      let '(ys, w') := biquad_run k (w1, w2) xs' in
      (y :: ys, w')
  end.

(** The cascade: each section filters the output of the one before it. *)
Fixpoint cascade_run (ks : list sos) (ws : list (float * float)) (xs : list float)
    : list float * list (float * float) :=
  match ks, ws with
  | k :: ks', w :: ws' =>
      let '(ys, w') := biquad_run k w xs in
      let '(zs, ws'') := cascade_run ks' ws' ys in
      (zs, w' :: ws'')
  | _, _ => (xs, ws)
  end.

(** The coefficient array and the state array of a cascade, as laid out
    in memory: stage after stage. *)
Definition coeff_cells (ks : list sos) : list float := ks ≫= sos_cells.
Definition states_cells (ws : list (float * float)) : list float := ws ≫= state_cells.

(** The kernel on planes: channel [c] is filtered by the cascade that the
    addressing rule gives it, with its own states. *)
Fixpoint sosfilt_run (kss : list (list sos)) (wss : list (list (float * float)))
    (xss : list (list float)) : list (list float) * list (list (float * float)) :=
  match kss, wss, xss with
  | ks :: kss', ws :: wss', xs :: xss' =>
      let '(ys, ws') := cascade_run ks ws xs in
      let '(yss, wss'') := sosfilt_run kss' wss' xss' in
      (ys :: yss, ws' :: wss'')
  | _, _, _ => ([], [])
  end.

(** The cells from [p] on hold the list [l]. *)
Fixpoint array_at (m : mem) (p : Z) (l : list float) : Prop :=
  match l with
  | [] => True
  | v :: l' => m !! p = Some v ∧ array_at m (p + 1) l'
  end.

(** The [n] cells from [p] on belong to the memory. *)
Fixpoint allocated (m : mem) (p : Z) (n : nat) : Prop :=
  match n with
  | O => True
  | S n' => is_Some (m !! p) ∧ allocated m (p + 1) n'
  end.

(** The memory with the list [l] stored from [p] on. *)
Fixpoint write_array (p : Z) (l : list float) (m : mem) : mem :=
  match l with
  | [] => m
  | v :: l' => write_array (p + 1) l' (<[p := v]> m)
  end.

(** The cells [[p, p + n)] and [[q, q + k)] do not overlap. *)
Definition disjoint (p n q k : Z) : Prop := p + n ≤ q ∨ q + k ≤ p.

(** *** The identity section *)

(** [{b0 = 1, b1 = 0, b2 = 0, a1 = 0, a2 = 0}]; the zeros may carry either
    sign ([-a1] of [a1 = 0.0f] is [-0.0f]). *)
Definition is_identity (k : sos) : Prop :=
  b0 k = F32.one ∧ F32.is_zero (b1 k) = true ∧ F32.is_zero (b2 k) = true
  ∧ F32.is_zero (na1 k) = true ∧ F32.is_zero (na2 k) = true.

(** A state pair of zeros. *)
Definition cleared (w : float * float) : Prop :=
  F32.is_zero w.1 = true ∧ F32.is_zero w.2 = true.

(** A sample that is a number: a value of the format, neither an infinity
    nor a NaN. *)
Definition ordinary (x : float) : Prop :=
  F32.is_finite x = true ∧ F32.valid x = true.

(** [y] reproduces [x]: the same bits, except that [-0.0f] may come out as
    [+0.0f]. *)
Definition reproduces (x y : float) : Prop :=
  y = x ∨ (x = F32.neg_zero ∧ y = F32.pos_zero).

(** *** Addressing by channel and stage *)

Definition share_sos (self : spark_sosfilt_f32_t) : bool :=
  negb (Z.land (Sosfilt.flags self) SPARK_SOSFILT_SHARE_SOS =? 0).

Definition coeff_offset (share : bool) (S c s : Z) : Z :=
  if share then 5 * s else 5 * (c * S + s).

Definition state_offset (S c s : Z) : Z := 2 * (c * S + s).

(** The arguments [(coeff, state, output, input)] of the section applied to
    channel [c] at stage [s]. *)
Definition stage_call (self : spark_sosfilt_f32_t) (c s : Z) : Z * Z * Z * Z :=
  let plane := mul_u32 c (frames (input (header self))) in
  let out := base (output (header self)) + plane in
  let in_ := base (input (header self)) + plane in
  (coefficients self + coeff_offset (share_sos self) (n_stages self) c s,
   states self + state_offset (n_stages self) c s,
   out,
   if s =? 0 then in_ else out).

(** The length of the coefficient array: one block of [5 * S] cells when
    shared, one per channel otherwise. *)
Definition coeff_span (share : bool) (S C : Z) : Z :=
  if share then 5 * S else 5 * (C * S).


(** What the kernel expects of the caller: [xss] are the input planes,
    [kss] and [wss] the coefficients and the states of each channel, all
    laid out as the headers document; the output cells are in the memory
    and not ahead of input cells still to be read; the planes do not wrap
    around [uint32_t]; the coefficient and state arrays are apart from each
    other and from the planes. *)
Record layout (self : spark_sosfilt_f32_t) (m : mem) (kss : list (list sos))
    (wss : list (list (float * float))) (xss : list (list float)) : Prop := {
  lay_channels : Z.of_nat (length xss) = channels (input (header self));
  lay_coeff_count : length kss = length xss;
  lay_state_count : length wss = length xss;
  lay_frames :
    Forall (λ xs, Z.of_nat (length xs) = frames (input (header self))) xss;
  lay_coeff_stages : Forall (λ ks, Z.of_nat (length ks) = n_stages self) kss;
  lay_state_stages : Forall (λ ws, Z.of_nat (length ws) = n_stages self) wss;
  lay_span :
    channels (input (header self)) * frames (input (header self)) ≤ 2 ^ 32;
  lay_coeff :
    if share_sos self
    then ∃ ks, kss = replicate (length xss) ks
               ∧ array_at m (coefficients self) (coeff_cells ks)
    else array_at m (coefficients self) (kss ≫= coeff_cells);
  lay_states : array_at m (states self) (wss ≫= states_cells);
  lay_input : array_at m (base (input (header self))) (concat xss);
  lay_output : allocated m (base (output (header self))) (length (concat xss));
  lay_order :
    base (output (header self)) ≤ base (input (header self))
    ∨ base (input (header self))
      + channels (input (header self)) * frames (input (header self))
      ≤ base (output (header self));
  lay_coeff_output :
    disjoint (coefficients self)
      (coeff_span (share_sos self) (n_stages self) (channels (input (header self))))
      (base (output (header self)))
      (channels (input (header self)) * frames (input (header self)));
  lay_coeff_states :
    disjoint (coefficients self)
      (coeff_span (share_sos self) (n_stages self) (channels (input (header self))))
      (states self) (2 * (channels (input (header self)) * n_stages self));
  lay_states_output :
    disjoint (states self) (2 * (channels (input (header self)) * n_stages self))
      (base (output (header self)))
      (channels (input (header self)) * frames (input (header self)));
  lay_states_input :
    disjoint (states self) (2 * (channels (input (header self)) * n_stages self))
      (base (input (header self)))
      (channels (input (header self)) * frames (input (header self)))
}.

(** The same filter instance pointed at other buffers: input at [ib],
    output at [ob], [n] frames. *)
Definition with_io (self : spark_sosfilt_f32_t) (ib ob n : Z) : spark_sosfilt_f32_t :=
  let h := header self in
  {| header :=
       {| abi_version := abi_version h; struct_size := struct_size h;
          input := {| base := ib; channels := channels (input h); frames := n;
                      Block.flags := Block.flags (input h) |};
          output := {| base := ob; channels := channels (output h); frames := n;
                       Block.flags := Block.flags (output h) |} |};
     coefficients := coefficients self; states := states self;
     n_stages := n_stages self; Sosfilt.flags := Sosfilt.flags self |}.


End Model.

(** ** Example data *)

Module Examples.
Import Block Mem Sosfilt Model.

Definition f32_planar : Z := Z.lor SPARK_FMT_F32 SPARK_LAYOUT_PLANAR.

Definition f32_planar_process : Z := Z.lor f32_planar SPARK_BLOCK_PROCESS.

Definition buffer (p c f fl : Z) : spark_buffer_t :=
  {| base := p; channels := c; frames := f; Block.flags := fl |}.

(** A block as a caller of an LP64 build with ABI version 1 fills it in. *)
Definition block (i o : spark_buffer_t) : spark_block_t :=
  {| abi_version := 1; struct_size := 56; input := i; output := o |}.

(** Two channels of 64 frames in, two channels of 64 frames out. *)
Definition stereo_block : spark_block_t :=
  block (buffer 4096 2 64 f32_planar) (buffer 8192 2 64 f32_planar).

(** The same input with an output of 32 frames. *)
Definition mismatched_block : spark_block_t :=
  block (buffer 4096 2 64 f32_planar) (buffer 8192 2 32 f32_planar).

(** A filter instance over the block [blk]. *)
Definition instance (blk : spark_block_t) (coeff state stages fl : Z)
    : spark_sosfilt_f32_t :=
  {| header := blk; coefficients := coeff; states := state;
     n_stages := stages; Sosfilt.flags := fl |}.

(** One channel of two frames, input at cell 100 and output at cell 110. *)
Definition mono_block : spark_block_t :=
  block (buffer 100 1 2 f32_planar) (buffer 110 1 2 f32_planar).

(** [2.0f] and [3.0f]. *)
Definition two : float := S754_finite false 8388608 (-22).
Definition three : float := S754_finite false 12582912 (-22).

(** The identity section [{1, 0, 0, 0, 0}], and the section
    [y[n] = x[n] + x[n-1]], [{1, 1, 0, 0, 0}]. *)
Definition identity_sos : sos :=
  {| b0 := F32.one; b1 := F32.pos_zero; b2 := F32.pos_zero;
     na1 := F32.pos_zero; na2 := F32.pos_zero |}.

Definition moving_sum_sos : sos :=
  {| b0 := F32.one; b1 := F32.one; b2 := F32.pos_zero;
     na1 := F32.pos_zero; na2 := F32.pos_zero |}.

(** A memory with two input samples at 100, two output cells at 110, the
    section [k] at 200 and its cleared state at 300. *)
Definition mono_memory_of (k : sos) (x0 x1 : float) : mem :=
  write_array 100 [x0; x1]
    (write_array 110 [F32.pos_zero; F32.pos_zero]
       (write_array 200 (sos_cells k)
          (write_array 300 [F32.pos_zero; F32.pos_zero] ∅))).

Definition mono_memory (x0 x1 : float) : mem := mono_memory_of identity_sos x0 x1.

(** The one-stage filter over [mono_block] with its arrays at 200 and
    300. *)
Definition mono_instance : spark_sosfilt_f32_t :=
  instance mono_block 200 300 1 SPARK_SOSFILT_INDEPENDENT_SOS.

(** Two channels of two frames, two stages: planes at 100 and 110,
    coefficients at 200, states at 300. *)
Definition duo_block : spark_block_t :=
  block (buffer 100 2 2 f32_planar) (buffer 110 2 2 f32_planar).

Definition duo_instance (fl : Z) : spark_sosfilt_f32_t :=
  instance duo_block 200 300 2 fl.

(** Channel 0 holds [1, 2] and channel 1 holds [2, 1]; the coefficient
    array holds the moving sum and the identity for channel 0 and the
    identity and the moving sum for channel 1; all states are cleared. *)
Definition duo_memory : mem :=
  write_array 100 [F32.one; two; two; F32.one]
    (write_array 110 (replicate 4 F32.pos_zero)
       (write_array 200
          (coeff_cells [moving_sum_sos; identity_sos; identity_sos; moving_sum_sos])
          (write_array 300 (replicate 8 F32.pos_zero) ∅))).

(** A one-stage instance over [mono_block] whose coefficient pointer is
    null. *)
Definition null_coeff_instance : spark_sosfilt_f32_t :=
  instance mono_block 0 300 1 SPARK_SOSFILT_INDEPENDENT_SOS.

(** The same with a null state pointer instead. *)
Definition null_state_instance : spark_sosfilt_f32_t :=
  instance mono_block 200 0 1 SPARK_SOSFILT_INDEPENDENT_SOS.

End Examples.

(** * Properties *)

(** ** The validator *)

Module BlockProps.
Import Block.

Section Validate.
Context `{Build}.

Lemma validate_success_iff addr block flags :
  spark_block_validate (Some (addr, block)) flags = 0
  ↔ passes_gates (Some (addr, block)) flags ∧ type_rules addr block flags = true.
Proof.
  unfold spark_block_validate, passes_gates, type_rules.
  cbv zeta. rewrite !if_negb.
  split.
  - intros Hv.
    destruct (struct_size block <? sizeof_spark_block_t) eqn:Hsz; [discriminate|].
    destruct (abi_version block =? SPARK_ABI_VERSION) eqn:Habi; [|discriminate].
    destruct (spark_buffer_get_format flags =? SPARK_FMT_INVALID) eqn:Hf; [discriminate|].
    destruct (spark_buffer_get_layout flags =? SPARK_LAYOUT_INVALID) eqn:Hl; [discriminate|].
    destruct (spark_block_get_type flags =? SPARK_BLOCK_INVALID) eqn:Ht; [discriminate|].
    cbn [orb] in Hv.
    split.
    + exists addr, block. repeat split; lia.
    + repeat (case_match; try discriminate; cbn [andb] in * ); reflexivity.
  - intros [(a & b & [= <- <-] & Hsz & Habi & Hf & Hl & Ht) Hr].
    apply Z.ltb_ge in Hsz. rewrite Hsz.
    apply Z.eqb_eq in Habi. rewrite Habi.
    apply Z.eqb_neq in Hf, Hl, Ht. rewrite Hf, Hl, Ht.
    cbn [orb].
    repeat (case_match; try discriminate; cbn [andb] in *;
            rewrite ?andb_false_r in * ). all: first [reflexivity | congruence].
Qed.

Lemma is_valid_iff loc b :
  spark_buffer_is_valid (Some (loc, b)) = true ↔ valid_buffer b.
Proof.
  unfold spark_buffer_is_valid, valid_buffer.
  rewrite !andb_true_iff, negb_true_iff, Z.eqb_neq, !Z.ltb_lt. tauto.
Qed.

Lemma check_type_iff loc b flags :
  spark_buffer_check_type (Some (loc, b))
    (spark_buffer_get_format flags) (spark_buffer_get_layout flags) = true
  ↔ has_type b flags.
Proof.
  unfold spark_buffer_check_type, has_type.
  rewrite andb_true_iff, !Z.eqb_eq. tauto.
Qed.

Lemma is_similar_fields addr i o :
  spark_buffer_is_similar (Some (InputOf addr, i)) (Some (OutputOf addr, o)) = true
  → channels i = channels o ∧ frames i = frames o.
Proof.
  unfold spark_buffer_is_similar, buffer_ptr_eqb.
  rewrite bool_decide_eq_false_2 by discriminate.
  rewrite !andb_true_iff, !Z.eqb_eq. tauto.
Qed.

(** C4. The gates of [spark_block_validate] are applied in order and the
    first failure decides: 1 for a null block; else 2 when the declared
    size is below [sizeof(spark_block_t)]; else 3 when the ABI version
    differs; else 1 when the required flags carry the invalid format, the
    invalid layout or the invalid block type; and 0 when these gates and
    the rule of the block type all pass. *)
Theorem validate_gate_order (p_block : block_ptr) (flags : Z) :
  (p_block = None → spark_block_validate p_block flags = 1)
  ∧ (∀ addr block, p_block = Some (addr, block) →
      (struct_size block < sizeof_spark_block_t →
         spark_block_validate p_block flags = 2)
      ∧ (sizeof_spark_block_t ≤ struct_size block →
         abi_version block ≠ SPARK_ABI_VERSION →
         spark_block_validate p_block flags = 3)
      ∧ (sizeof_spark_block_t ≤ struct_size block →
         abi_version block = SPARK_ABI_VERSION →
         spark_buffer_get_format flags = SPARK_FMT_INVALID
         ∨ spark_buffer_get_layout flags = SPARK_LAYOUT_INVALID
         ∨ spark_block_get_type flags = SPARK_BLOCK_INVALID →
         spark_block_validate p_block flags = 1)
      ∧ (sizeof_spark_block_t ≤ struct_size block →
         abi_version block = SPARK_ABI_VERSION →
         spark_buffer_get_format flags ≠ SPARK_FMT_INVALID →
         spark_buffer_get_layout flags ≠ SPARK_LAYOUT_INVALID →
         spark_block_get_type flags ≠ SPARK_BLOCK_INVALID →
         type_rules addr block flags = true →
         spark_block_validate p_block flags = 0)).
Proof.
  split; [intros ->; reflexivity|].
  intros addr block ->. unfold spark_block_validate. cbv zeta.
  repeat split.
  - intros Hsz. apply Z.ltb_lt in Hsz. rewrite Hsz. reflexivity.
  - intros Hsz Habi. apply Z.ltb_ge in Hsz. apply Z.eqb_neq in Habi.
    rewrite Hsz, Habi. reflexivity.
  - intros Hsz Habi Hflags. apply Z.ltb_ge in Hsz. apply Z.eqb_eq in Habi.
    rewrite Hsz, Habi. cbn [negb].
    destruct Hflags as [Hf | [Hf | Hf]]; apply Z.eqb_eq in Hf; rewrite Hf;
      rewrite ?orb_true_r; reflexivity.
  - intros Hsz Habi Hf Hl Ht Hr.
    apply validate_success_iff. split; [|exact Hr].
    exists addr, block. auto 10.
Qed.

(** C7. A block that passes the four gates under block type Process and
    whose two descriptors differ in channel count or in frame count is
    rejected with 6, whatever else holds of the two buffers. *)
Theorem process_shape_mismatch (addr : Z) (block : spark_block_t) (flags : Z) :
  passes_gates (Some (addr, block)) flags →
  spark_block_get_type flags = SPARK_BLOCK_PROCESS →
  channels (input block) ≠ channels (output block)
  ∨ frames (input block) ≠ frames (output block) →
  spark_block_validate (Some (addr, block)) flags = 6.
Proof.
  intros (a & b & [= <- <-] & Hsz & Habi & Hf & Hl & Ht) Hty Hshape.
  unfold spark_block_validate. cbv zeta.
  apply Z.ltb_ge in Hsz. apply Z.eqb_eq in Habi.
  apply Z.eqb_neq in Hf, Hl, Ht.
  rewrite Hsz, Habi, Hf, Hl, Ht. cbn [negb orb].
  rewrite Hty, Z.eqb_refl.
  destruct (spark_buffer_is_similar _ _) eqn:Hsim; [|reflexivity].
  apply is_similar_fields in Hsim. lia.
Qed.

(** C8. Under block type Convert, a block that passes the four gates
    validates exactly when its input is valid and of the required format
    and layout and its output is valid; so any valid output descriptor,
    whatever its flags and its frame count, is accepted with such an
    input. *)
Theorem convert_validation (addr : Z) (block : spark_block_t) (flags : Z) :
  passes_gates (Some (addr, block)) flags →
  spark_block_get_type flags = SPARK_BLOCK_CONVERT →
  (spark_block_validate (Some (addr, block)) flags = 0
   ↔ valid_buffer (input block) ∧ has_type (input block) flags
     ∧ valid_buffer (output block))
  ∧ (∀ o : spark_buffer_t,
       valid_buffer (input block) → has_type (input block) flags →
       valid_buffer o →
       spark_block_validate (Some (addr, with_output block o)) flags = 0).
Proof.
  intros Hg Hty.
  assert (Hiff : ∀ blk, passes_gates (Some (addr, blk)) flags →
            (spark_block_validate (Some (addr, blk)) flags = 0
             ↔ valid_buffer (input blk) ∧ has_type (input blk) flags
               ∧ valid_buffer (output blk))).
  { intros blk Hgb. rewrite validate_success_iff.
    unfold type_rules. cbv zeta. rewrite Hty.
    change (SPARK_BLOCK_CONVERT =? SPARK_BLOCK_PROCESS) with false.
    change (SPARK_BLOCK_CONVERT =? SPARK_BLOCK_CONVERT) with true.
    cbv iota.
    rewrite !andb_true_iff, !is_valid_iff, check_type_iff. tauto. }
  split; [apply Hiff, Hg|].
  intros o Hi Ht Ho. apply Hiff; [|cbn; tauto].
  destruct Hg as (a & b & [= <- <-] & Hrest).
  exists addr, (with_output block o). split; [reflexivity|exact Hrest].
Qed.

(** C9. Under block type Sink the output descriptor has no influence on
    the status, and under block type Source the input descriptor has
    none: replacing it by any other descriptor leaves the status as it
    was. *)
Theorem unused_side_ignored (addr : Z) (block : spark_block_t) (flags : Z) :
  (spark_block_get_type flags = SPARK_BLOCK_SINK →
   ∀ o : spark_buffer_t,
     spark_block_validate (Some (addr, with_output block o)) flags
     = spark_block_validate (Some (addr, block)) flags)
  ∧ (spark_block_get_type flags = SPARK_BLOCK_SOURCE →
     ∀ i : spark_buffer_t,
       spark_block_validate (Some (addr, with_input block i)) flags
       = spark_block_validate (Some (addr, block)) flags).
Proof.
  split; intros Hty d; unfold spark_block_validate; cbv zeta; rewrite Hty; reflexivity.
Qed.

Lemma land_mask_low (f1 f2 mask : Z) :
  (∀ i, 0 ≤ i ≤ 10 → Z.testbit f1 i = Z.testbit f2 i) →
  0 ≤ mask → Z.log2 mask ≤ 10 →
  Z.land f1 mask = Z.land f2 mask.
Proof.
  intros Hbits Hpos Hlog. apply Z.bits_inj'. intros n Hn.
  rewrite !Z.land_spec.
  destruct (decide (n ≤ 10)) as [Hle|Hgt].
  - rewrite Hbits by lia. reflexivity.
  - rewrite (Z.bits_above_log2 mask n) by lia. rewrite !andb_false_r. reflexivity.
Qed.

(** C10. Two required-flags words that agree on bits 0 to 10 give the same
    status on every block: the bits above the format, layout and
    block-type fields are not looked at. *)
Theorem validate_ignores_high_bits (p_block : block_ptr) (f1 f2 : Z) :
  (∀ i, 0 ≤ i ≤ 10 → Z.testbit f1 i = Z.testbit f2 i) →
  spark_block_validate p_block f1 = spark_block_validate p_block f2.
Proof.
  intros Hbits. unfold spark_block_validate.
  unfold spark_buffer_get_format, spark_buffer_get_layout, spark_block_get_type.
  rewrite (land_mask_low f1 f2 SPARK_FMT_MASK Hbits) by (vm_compute; lia || discriminate).
  rewrite (land_mask_low f1 f2 SPARK_LAYOUT_MASK Hbits) by (vm_compute; lia || discriminate).
  rewrite (land_mask_low f1 f2 SPARK_BLOCK_TYPE_MASK Hbits) by (vm_compute; lia || discriminate).
  reflexivity.
Qed.

End Validate.

Import Examples.

Lemma validate_gate_order_witness :
  spark_block_validate (H := lp64_release) None f32_planar_process = 1
  ∧ spark_block_validate (H := lp64_release)
      (Some (64, {| abi_version := 1; struct_size := 40;
                    input := input stereo_block; output := output stereo_block |}))
      f32_planar_process = 2
  ∧ spark_block_validate (H := lp64_release)
      (Some (64, {| abi_version := 2; struct_size := 56;
                    input := input stereo_block; output := output stereo_block |}))
      f32_planar_process = 3
  ∧ spark_block_validate (H := lp64_release)
      (Some (64, stereo_block)) SPARK_BLOCK_PROCESS = 1
  ∧ spark_block_validate (H := lp64_release)
      (Some (64, stereo_block)) f32_planar_process = 0.
Proof.
  split; [|split; [|split; [|split]]].
  - apply (validate_gate_order (H := lp64_release) None f32_planar_process).
    reflexivity.
  - destruct (validate_gate_order (H := lp64_release)
                (Some (64, {| abi_version := 1; struct_size := 40;
                    input := input stereo_block; output := output stereo_block |}))
                f32_planar_process) as [_ Hb].
    destruct (Hb _ _ eq_refl) as (H2 & _). apply H2. vm_compute. reflexivity.
  - destruct (validate_gate_order (H := lp64_release)
                (Some (64, {| abi_version := 2; struct_size := 56;
                    input := input stereo_block; output := output stereo_block |}))
                f32_planar_process) as [_ Hb].
    destruct (Hb _ _ eq_refl) as (_ & H3 & _).
    apply H3; vm_compute; discriminate.
  - destruct (validate_gate_order (H := lp64_release)
                (Some (64, stereo_block)) SPARK_BLOCK_PROCESS) as [_ Hb].
    destruct (Hb _ _ eq_refl) as (_ & _ & H4 & _).
    apply H4; [vm_compute; discriminate | reflexivity | left; reflexivity].
  - destruct (validate_gate_order (H := lp64_release)
                (Some (64, stereo_block)) f32_planar_process) as [_ Hb].
    destruct (Hb _ _ eq_refl) as (_ & _ & _ & H5).
    apply H5; first [reflexivity | vm_compute; discriminate].
Defined.

Lemma stereo_passes_gates (blk : spark_block_t) (flags : Z) :
  struct_size blk = 56 → abi_version blk = 1 →
  spark_buffer_get_format flags ≠ 0 → spark_buffer_get_layout flags ≠ 0 →
  spark_block_get_type flags ≠ 0 →
  passes_gates (H := lp64_release) (Some (64, blk)) flags.
Proof.
  intros Hsz Habi Hf Hl Ht. exists 64, blk. cbn. rewrite Hsz, Habi. auto 10 with lia.
Qed.

Lemma process_shape_mismatch_witness :
  spark_block_validate (H := lp64_release) (Some (64, mismatched_block))
    f32_planar_process = 6.
Proof.
  apply (process_shape_mismatch (H := lp64_release)).
  - apply stereo_passes_gates; first [reflexivity | vm_compute; discriminate].
  - reflexivity.
  - right. vm_compute. discriminate.
Defined.

Lemma convert_validation_witness :
  spark_block_validate (H := lp64_release)
    (Some (64, with_output stereo_block (buffer 8192 1 17 SPARK_FMT_I16)))
    (Z.lor f32_planar SPARK_BLOCK_CONVERT) = 0.
Proof.
  apply (convert_validation (H := lp64_release) 64 stereo_block).
  - apply stereo_passes_gates; first [reflexivity | vm_compute; discriminate].
  - reflexivity.
  - vm_compute. repeat split; discriminate.
  - split; reflexivity.
  - vm_compute. repeat split; discriminate.
Defined.

Lemma unused_side_ignored_witness :
  spark_block_validate (H := lp64_release)
    (Some (64, with_output stereo_block (buffer 0 0 0 0)))
    (Z.lor f32_planar SPARK_BLOCK_SINK)
  = spark_block_validate (H := lp64_release) (Some (64, stereo_block))
      (Z.lor f32_planar SPARK_BLOCK_SINK)
  ∧ spark_block_validate (H := lp64_release)
      (Some (64, with_input stereo_block (buffer 0 0 0 0)))
      (Z.lor f32_planar SPARK_BLOCK_SOURCE)
    = spark_block_validate (H := lp64_release) (Some (64, stereo_block))
        (Z.lor f32_planar SPARK_BLOCK_SOURCE).
Proof.
  split.
  - apply (unused_side_ignored (H := lp64_release)). reflexivity.
  - apply (unused_side_ignored (H := lp64_release)). reflexivity.
Defined.

Lemma validate_ignores_high_bits_witness :
  spark_block_validate (H := lp64_release) (Some (64, stereo_block)) 0x123
  = spark_block_validate (H := lp64_release) (Some (64, stereo_block)) 0x80000923.
Proof.
  apply (validate_ignores_high_bits (H := lp64_release)).
  intros i Hi.
  assert (Hcases : i = 0 ∨ i = 1 ∨ i = 2 ∨ i = 3 ∨ i = 4 ∨ i = 5 ∨ i = 6
                   ∨ i = 7 ∨ i = 8 ∨ i = 9 ∨ i = 10) by lia.
  repeat (destruct Hcases as [-> | Hcases]; [reflexivity|]).
  subst i. reflexivity.
Defined.

End BlockProps.

(** ** The kernel: control flow *)

Module KernelProps.
Import Block Mem Sosfilt Model.


Lemma outcome_bind_ret {A} (c : outcome A) : c ≫= Ok = c.
Proof. destruct c; reflexivity. Qed.




Section Kernel.
Context `{Build}.

(** An instance that validates, with both arrays present and at least one
    stage, reaches the channel loop in either build. *)
Lemma sosfilt_enters_loop (addr : Z) (self : spark_sosfilt_f32_t) (m : mem) :
  spark_block_validate (Some (addr, header self)) required_flags = 0 →
  coefficients self ≠ 0 → states self ≠ 0 → 0 < n_stages self →
  spark_sosfilt_f32 (Some (addr, self)) m
  = chan_loop self (Z.to_nat (channels (input (header self)))) 0
      (coefficients self) (states self) m.
Proof.
  intros Hval Hc Hs HS.
  unfold spark_sosfilt_f32, as_block_ptr.
  rewrite Hval.
  apply BlockProps.validate_success_iff in Hval as [_ Hrules].
  unfold type_rules in Hrules. cbv zeta in Hrules.
  change (spark_block_get_type required_flags =? SPARK_BLOCK_PROCESS)
    with true in Hrules. cbv iota in Hrules.
  rewrite !andb_true_iff in Hrules.
  destruct Hrules as ((((_ & Hvi) & Hvo) & _) & _).
  apply BlockProps.is_valid_iff in Hvi as (Hbi & Hci & Hfi).
  apply BlockProps.is_valid_iff in Hvo as (Hbo & _ & _).
  unfold assert.
  rewrite bool_decide_eq_true_2 by eauto.
  change (SPARK_NOERROR =? SPARK_NOERROR) with true.
  rewrite !orb_true_r. cbn [mbind outcome_bind negb].
  apply Z.eqb_neq in Hc, Hs, Hbi, Hbo. apply Z.ltb_lt in HS.
  rewrite Hc, Hs, HS, Hbi, Hbo. cbn [negb andb]. rewrite !orb_true_r.
  reflexivity.
Qed.

(** What validation under the kernel's flags tells about the header. *)
Lemma validated_header (addr : Z) (blk : spark_block_t) :
  spark_block_validate (Some (addr, blk)) required_flags = 0 →
  valid_buffer (input blk) ∧ valid_buffer (output blk)
  ∧ channels (input blk) = channels (output blk)
  ∧ frames (input blk) = frames (output blk).
Proof.
  intros Hval.
  apply BlockProps.validate_success_iff in Hval as [_ Hrules].
  unfold type_rules in Hrules. cbv zeta in Hrules.
  change (spark_block_get_type required_flags =? SPARK_BLOCK_PROCESS)
    with true in Hrules. cbv iota in Hrules.
  rewrite !andb_true_iff in Hrules.
  destruct Hrules as ((((Hsim & Hvi) & Hvo) & _) & _).
  apply BlockProps.is_valid_iff in Hvi. apply BlockProps.is_valid_iff in Hvo.
  apply BlockProps.is_similar_fields in Hsim. tauto.
Qed.


(** As long as the planes do not wrap around [uint32_t], the plane of
    channel [c] starts [c * frames] cells into each buffer. *)
Lemma stage_call_planes (self : spark_sosfilt_f32_t) (c s : Z) :
  0 ≤ c < channels (input (header self)) →
  0 ≤ frames (input (header self)) →
  channels (input (header self)) * frames (input (header self)) ≤ 2 ^ 32 →
  (stage_call self c s).1.2
  = base (output (header self)) + c * frames (input (header self))
  ∧ (stage_call self c s).2
    = (if s =? 0 then base (input (header self)) else base (output (header self)))
      + c * frames (input (header self)).
Proof.
  intros Hc HF Hspan. unfold stage_call, mul_u32. cbn [fst snd].
  rewrite Z.mod_small by nia. destruct (s =? 0); auto.
Qed.

(** What the release build does on the inputs the kernel is documented to
    reject: a block that does not validate, and a zero stage count, leave
    the memory as it was. *)
Lemma sosfilt_rejects_invalid_block (self : sosfilt_ptr) (m : mem) :
  NDEBUG = true →
  spark_block_validate (as_block_ptr self) required_flags ≠ 0 →
  spark_sosfilt_f32 self m = Ok m.
Proof.
  intros Hnd Hval. unfold spark_sosfilt_f32, assert. rewrite Hnd.
  cbn [orb mbind outcome_bind].
  apply Z.eqb_neq in Hval. unfold SPARK_NOERROR. rewrite Hval. reflexivity.
Qed.

Lemma sosfilt_zero_stages (addr : Z) (self : spark_sosfilt_f32_t) (m : mem) :
  NDEBUG = true →
  n_stages self = 0 →
  spark_sosfilt_f32 (Some (addr, self)) m = Ok m.
Proof.
  intros Hnd HS. unfold spark_sosfilt_f32, assert. rewrite Hnd.
  cbn [orb mbind outcome_bind].
  destruct (negb _); [reflexivity|].
  generalize (coefficients self), (states self), 0.
  induction (Z.to_nat (channels (input (header self)))) as [|n IH];
    intros c w k; [reflexivity|].
  cbn [chan_loop]. rewrite HS. cbn [Z.to_nat stage_loop mbind outcome_bind].
  apply IH.
Qed.

(** What it does on the other two: with a null coefficient or state
    pointer and a block that validates, the first section is run and
    loads through the null pointer. *)
Lemma sosfilt_null_array_faults (addr : Z) (self : spark_sosfilt_f32_t) (m : mem) :
  NDEBUG = true →
  spark_block_validate (Some (addr, header self)) required_flags = 0 →
  coefficients self = 0 ∨ states self = 0 →
  0 < n_stages self →
  m !! 0 = None →
  spark_sosfilt_f32 (Some (addr, self)) m = Fault.
Proof.
  intros Hnd Hval Hptr HS Hnull.
  destruct (validated_header _ _ Hval) as ((_ & Hci & _) & _).
  unfold spark_sosfilt_f32, assert, as_block_ptr. rewrite Hnd, Hval.
  cbn [orb mbind outcome_bind negb Z.eqb SPARK_NOERROR].
  destruct (Z.to_nat (channels (input (header self)))) as [|nc] eqn:Hnc; [lia|].
  cbn [chan_loop].
  destruct (Z.to_nat (n_stages self)) as [|ns] eqn:Hns; [lia|].
  cbn [stage_loop].
  assert (Hcall : ∀ out in_ F,
            biquad_process_f32 (coefficients self) (states self) out in_ F m = Fault).
  { intros out in_ F. unfold biquad_process_f32, load. rewrite !Z.add_0_r.
    destruct Hptr as [-> | ->].
    - rewrite Hnull. reflexivity.
    - repeat (match goal with
              | |- context [m !! (coefficients self + ?k)] =>
                  destruct (m !! (coefficients self + k)); [|reflexivity]
              | |- context [m !! coefficients self] =>
                  destruct (m !! coefficients self); [|reflexivity]
              end; cbn [mbind outcome_bind]).
      rewrite Hnull. reflexivity. }
  destruct (negb _); rewrite Hcall; reflexivity.
Qed.

End Kernel.

Import Examples.


(** The two-channel example, run: with independent coefficients channel 0
    ([1, 2]) goes through the moving sum and the identity, channel 1
    ([2, 1]) through the identity and the moving sum; with shared
    coefficients both go through the moving sum and the identity. *)
Example duo_run_independent :
  (λ o, peek o <$> [110; 111; 112; 113; 300; 301; 306; 307])
    (spark_sosfilt_f32 (H := lp64_release)
       (Some (64, duo_instance SPARK_SOSFILT_INDEPENDENT_SOS)) duo_memory)
  = Some <$> [F32.one; three; two; three; two; F32.pos_zero; F32.one; F32.pos_zero].
Proof. vm_compute. reflexivity. Qed.

Example duo_run_shared :
  (λ o, peek o <$> [110; 111; 112; 113; 300; 301; 304; 305])
    (spark_sosfilt_f32 (H := lp64_release)
       (Some (64, duo_instance SPARK_SOSFILT_SHARE_SOS)) duo_memory)
  = Some <$> [F32.one; three; two; three; two; F32.pos_zero; F32.one; F32.pos_zero].
Proof. vm_compute. reflexivity. Qed.

(** C3. With asserts compiled out, an instance whose block validates but
    whose coefficient pointer is null is not turned away: the first
    section is run and loads its coefficients through the null pointer.
    The same happens with a null state pointer.  In the debug build both
    stop at the [assert]. *)
Theorem null_pointers_not_rejected :
  spark_block_validate (H := lp64_release)
    (Some (64, header null_coeff_instance)) required_flags = 0
  ∧ mono_memory F32.one F32.one !! 0 = None
  ∧ spark_sosfilt_f32 (H := lp64_release) (Some (64, null_coeff_instance))
      (mono_memory F32.one F32.one) = Fault
  ∧ spark_sosfilt_f32 (H := lp64_release) (Some (64, null_state_instance))
      (mono_memory F32.one F32.one) = Fault
  ∧ spark_sosfilt_f32 (H := lp64_debug) (Some (64, null_coeff_instance))
      (mono_memory F32.one F32.one) = Aborted
  ∧ spark_sosfilt_f32 (H := lp64_debug) (Some (64, null_state_instance))
      (mono_memory F32.one F32.one) = Aborted.
Proof. repeat split; vm_compute; reflexivity. Qed.

End KernelProps.

(** ** Arrays in memory *)

Module MemProps.
Import Mem Model.

Lemma array_at_lookup (m : mem) (l : list float) :
  ∀ p, array_at m p l
       ↔ ∀ (i : nat) v, l !! i = Some v → m !! (p + Z.of_nat i) = Some v.
Proof.
  induction l as [|x l IH]; intros p; cbn [array_at].
  - split; [intros _ i v Hi; discriminate | tauto].
  - rewrite IH. split.
    + intros [Hp Hl] [|i] v Hi.
      * injection Hi as <-. rewrite Z.add_0_r. exact Hp.
      * replace (p + Z.of_nat (S i)) with (p + 1 + Z.of_nat i) by lia. auto.
    + intros Hall. split.
      * rewrite <- (Z.add_0_r p). apply (Hall 0%nat). reflexivity.
      * intros i v Hi.
        replace (p + 1 + Z.of_nat i) with (p + Z.of_nat (S i)) by lia. auto.
Qed.

Lemma allocated_lookup (m : mem) (n : nat) :
  ∀ p, allocated m p n
       ↔ ∀ i : nat, (i < n)%nat → is_Some (m !! (p + Z.of_nat i)).
Proof.
  induction n as [|n IH]; intros p; cbn [allocated].
  - split; [intros _ i Hi; lia | tauto].
  - rewrite IH. split.
    + intros [Hp Hn] [|i] Hi.
      * rewrite Z.add_0_r. exact Hp.
      * replace (p + Z.of_nat (S i)) with (p + 1 + Z.of_nat i) by lia.
        apply Hn. lia.
    + intros Hall. split.
      * rewrite <- (Z.add_0_r p). apply (Hall 0%nat). lia.
      * intros i Hi.
        replace (p + 1 + Z.of_nat i) with (p + Z.of_nat (S i)) by lia.
        apply Hall. lia.
Qed.

Lemma array_at_allocated (m : mem) (p : Z) (l : list float) :
  array_at m p l → allocated m p (length l).
Proof.
  rewrite array_at_lookup, allocated_lookup. intros Harr i Hi.
  destruct (lookup_lt_is_Some_2 l i Hi) as [v Hv]. rewrite (Harr i v Hv). eauto.
Qed.

Lemma lookup_write_array (l : list float) :
  ∀ (p : Z) (m : mem) (q : Z),
    write_array p l m !! q
    = if decide (p ≤ q < p + Z.of_nat (length l))
      then l !! Z.to_nat (q - p) else m !! q.
Proof.
  induction l as [|x l IH]; intros p m q; cbn [write_array length].
  - case_decide; [lia | reflexivity].
  - rewrite IH. repeat case_decide; try lia.
    + replace (Z.to_nat (q - p)) with (S (Z.to_nat (q - (p + 1)))) by lia.
      reflexivity.
    + assert (q = p) as -> by lia. rewrite lookup_insert_eq, Z.sub_diag. reflexivity.
    + rewrite lookup_insert_ne by lia. reflexivity.
Qed.

Lemma array_at_app (m : mem) (p : Z) (l1 l2 : list float) :
  array_at m p (l1 ++ l2)
  ↔ array_at m p l1 ∧ array_at m (p + Z.of_nat (length l1)) l2.
Proof.
  revert p. induction l1 as [|x l1 IH]; intros p; cbn [app array_at length].
  - rewrite Z.add_0_r. tauto.
  - rewrite IH. replace (p + 1 + Z.of_nat (length l1))
      with (p + Z.of_nat (S (length l1))) by lia. tauto.
Qed.

Lemma allocated_add (m : mem) (p : Z) (n1 n2 : nat) :
  allocated m p (n1 + n2)
  ↔ allocated m p n1 ∧ allocated m (p + Z.of_nat n1) n2.
Proof.
  revert p. induction n1 as [|n1 IH]; intros p; cbn [Nat.add allocated].
  - rewrite Z.add_0_r. tauto.
  - rewrite IH. replace (p + 1 + Z.of_nat n1) with (p + Z.of_nat (S n1)) by lia.
    tauto.
Qed.

Lemma write_array_app (p : Z) (l1 l2 : list float) (m : mem) :
  write_array p (l1 ++ l2) m
  = write_array (p + Z.of_nat (length l1)) l2 (write_array p l1 m).
Proof.
  revert p m. induction l1 as [|x l1 IH]; intros p m; cbn [app write_array length].
  - rewrite Z.add_0_r. reflexivity.
  - rewrite IH. f_equal. lia.
Qed.

Lemma array_at_write_array (p : Z) (l : list float) (m : mem) :
  array_at (write_array p l m) p l.
Proof.
  apply array_at_lookup. intros i v Hi. rewrite lookup_write_array.
  pose proof (lookup_lt_Some _ _ _ Hi).
  case_decide; [|lia].
  replace (Z.to_nat (p + Z.of_nat i - p)) with i by lia. exact Hi.
Qed.

Lemma array_at_write_array_ne (p q : Z) (l l' : list float) (m : mem) :
  array_at m q l' →
  disjoint p (Z.of_nat (length l)) q (Z.of_nat (length l')) →
  array_at (write_array p l m) q l'.
Proof.
  rewrite !array_at_lookup. intros Harr Hdis i v Hi.
  pose proof (lookup_lt_Some _ _ _ Hi).
  rewrite lookup_write_array. unfold disjoint in Hdis.
  case_decide; [lia | auto].
Qed.

Lemma allocated_write_array (p q : Z) (l : list float) (n : nat) (m : mem) :
  allocated m q n → allocated (write_array p l m) q n.
Proof.
  rewrite !allocated_lookup. intros Hall i Hi.
  rewrite lookup_write_array. case_decide; [|auto].
  apply lookup_lt_is_Some_2. lia.
Qed.

Lemma write_array_commute (p q : Z) (l1 l2 : list float) (m : mem) :
  disjoint p (Z.of_nat (length l1)) q (Z.of_nat (length l2)) →
  write_array p l1 (write_array q l2 m) = write_array q l2 (write_array p l1 m).
Proof.
  intros Hdis. apply map_eq. intros a. rewrite !lookup_write_array.
  unfold disjoint in Hdis. repeat case_decide; first [reflexivity | lia].
Qed.

Lemma write_array_overwrite (p : Z) (l1 l2 : list float) (m : mem) :
  length l1 = length l2 →
  write_array p l2 (write_array p l1 m) = write_array p l2 m.
Proof.
  intros Hlen. apply map_eq. intros a. rewrite !lookup_write_array.
  repeat case_decide; first [reflexivity | lia].
Qed.

Lemma write_array_id (p : Z) (l : list float) (m : mem) :
  array_at m p l → write_array p l m = m.
Proof.
  rewrite array_at_lookup. intros Harr. apply map_eq. intros a.
  rewrite lookup_write_array. case_decide as Ha; [|reflexivity].
  destruct (lookup_lt_is_Some_2 l (Z.to_nat (a - p)) ltac:(lia)) as [v Hv].
  rewrite Hv. rewrite <- (Harr _ _ Hv). f_equal. lia.
Qed.

End MemProps.

(** ** One section: the code against the recurrence *)

Module BiquadProps.
Import Mem Sosfilt Model MemProps.

Lemma biquad_run_cons (k : sos) (w : float * float) (x : float) (xs : list float) :
  let y := F32.add (F32.mul (b0 k) x) w.1 in
  let w1 := F32.add (F32.add (F32.mul (b1 k) x) (F32.mul (na1 k) y)) w.2 in
  let w2 := F32.add (F32.mul (b2 k) x) (F32.mul (na2 k) y) in
  biquad_run k w (x :: xs)
  = (y :: (biquad_run k (w1, w2) xs).1, (biquad_run k (w1, w2) xs).2).
Proof. cbn. destruct (biquad_run k _ xs). reflexivity. Qed.

Lemma biquad_run_length (k : sos) (xs : list float) :
  ∀ w, length (biquad_run k w xs).1 = length xs.
Proof.
  induction xs as [|x xs IH]; intros w; [reflexivity|].
  rewrite biquad_run_cons. cbn. rewrite IH. reflexivity.
Qed.

Lemma array_at_insert_ne (m : mem) (p q : Z) (l : list float) (v : float) :
  array_at m p l → q < p ∨ p + Z.of_nat (length l) ≤ q →
  array_at (<[q := v]> m) p l.
Proof.
  intros Harr Hq. apply (array_at_write_array_ne q p [v] l m Harr).
  unfold disjoint. cbn. lia.
Qed.

Lemma allocated_insert (m : mem) (p q : Z) (n : nat) (v : float) :
  allocated m p n → allocated (<[q := v]> m) p n.
Proof. apply (allocated_write_array q p [v] n m). Qed.

(** The sample loop from index [i] on: it reads the samples still to come,
    which no earlier store has touched, and stores the emitted ones. *)
Lemma biquad_loop_spec (k : sos) (output input : Z) (xs : list float) :
  ∀ (i : Z) (w : float * float) (m : mem),
    array_at m (input + i) xs →
    allocated m (output + i) (length xs) →
    output ≤ input ∨ input + Z.of_nat (length xs) ≤ output →
    biquad_loop (length xs) i (b0 k) (b1 k) (b2 k) (na1 k) (na2 k)
      output input w.1 w.2 m
    = Ok ((biquad_run k w xs).2.1, (biquad_run k w xs).2.2,
          write_array (output + i) (biquad_run k w xs).1 m).
Proof.
  induction xs as [|x xs IH]; intros i w m Harr Hall Hord.
  - destruct w. reflexivity.
  - rewrite biquad_run_cons. cbv zeta.
    cbn [length biquad_loop array_at allocated fst snd write_array] in *.
    destruct Harr as [Hx Harr]. destruct Hall as [[y0 Hy0] Hall].
    unfold load, store. rewrite Hx, Hy0. cbn [mbind outcome_bind].
    set (y := F32.add (F32.mul (b0 k) x) w.1).
    set (w1 := F32.add (F32.add (F32.mul (b1 k) x) (F32.mul (na1 k) y)) w.2).
    set (w2 := F32.add (F32.mul (b2 k) x) (F32.mul (na2 k) y)).
    specialize (IH (i + 1) (w1, w2) (<[output + i := y]> m)).
    rewrite !Z.add_assoc in IH. cbn [fst snd] in IH.
    apply IH.
    + apply array_at_insert_ne; [exact Harr | lia].
    + apply allocated_insert. exact Hall.
    + lia.
Qed.

(** One call of [biquad_process_f32] on a memory that holds the
    coefficients, the state and the input samples, with the output cells
    in the memory and not ahead of input cells still to be read. *)
Lemma biquad_process_f32_spec (k : sos) (w : float * float) (xs : list float)
    (coeff state output input : Z) (m : mem) :
  array_at m coeff (sos_cells k) →
  array_at m state (state_cells w) →
  array_at m input xs →
  allocated m output (length xs) →
  output ≤ input ∨ input + Z.of_nat (length xs) ≤ output →
  biquad_process_f32 coeff state output input (Z.of_nat (length xs)) m
  = Ok (write_array state (state_cells (biquad_run k w xs).2)
          (write_array output (biquad_run k w xs).1 m)).
Proof.
  intros Hk Hw Hx Hall Hord.
  cbn [array_at sos_cells state_cells] in Hk, Hw.
  destruct Hk as (Hb0 & Hb1 & Hb2 & Ha1 & Ha2 & _).
  destruct Hw as (Hw1 & Hw2 & _).
  unfold biquad_process_f32, load.
  replace (coeff + 1 + 1) with (coeff + 2) in * by lia.
  replace (coeff + 2 + 1) with (coeff + 3) in * by lia.
  replace (coeff + 3 + 1) with (coeff + 4) in * by lia.
  rewrite !Z.add_0_r.
  rewrite Hb0, Hb1, Hb2, Ha1, Ha2, Hw1, Hw2. cbn [mbind outcome_bind].
  rewrite Nat2Z.id.
  pose proof (biquad_loop_spec k output input xs 0 w m) as Hloop.
  rewrite !Z.add_0_r in Hloop. rewrite (Hloop Hx Hall Hord). clear Hloop.
  cbn [mbind outcome_bind].
  set (ys := (biquad_run k w xs).1). set (w' := (biquad_run k w xs).2).
  assert (Hst : allocated (write_array output ys m) state 2).
  { apply allocated_write_array. cbn. eauto. }
  cbn [allocated] in Hst. destruct Hst as ([v1 Hv1] & [v2 Hv2] & _).
  unfold store. rewrite Hv1. cbn [mbind outcome_bind].
  rewrite lookup_insert_ne by lia. rewrite Hv2. reflexivity.
Qed.

(** C1. One section run over a memory that holds the coefficients
    [{b0, b1, b2, -a1, -a2}], the state [{w1, w2}] and the samples [xs]
    emits, sample by sample, [y = b0*x + w1] and then sets
    [w1 = b1*x + (-a1)*y + w2] and [w2 = b2*x + (-a2)*y], all in
    single precision: the call returns, the state cells hold the final
    [{w1, w2}], and the output cells hold the emitted samples. *)
Theorem biquad_recurrence (k : sos) (w : float * float) (xs : list float)
    (coeff state output input : Z) (m : mem) :
  array_at m coeff (sos_cells k) →
  array_at m state (state_cells w) →
  array_at m input xs →
  allocated m output (length xs) →
  output ≤ input ∨ input + Z.of_nat (length xs) ≤ output →
  disjoint state 2 output (Z.of_nat (length xs)) →
  ∃ m' : mem,
    biquad_process_f32 coeff state output input (Z.of_nat (length xs)) m = Ok m'
    ∧ array_at m' output (biquad_run k w xs).1
    ∧ array_at m' state (state_cells (biquad_run k w xs).2)
    ∧ ∀ q, ¬ (output ≤ q < output + Z.of_nat (length xs)) →
           ¬ (state ≤ q < state + 2) → m' !! q = m !! q.
Proof.
  intros Hk Hw Hx Hall Hord Hdis.
  eexists. split; [apply (biquad_process_f32_spec k w xs); assumption|].
  pose proof (biquad_run_length k xs w) as Hlen.
  split; [|split].
  - apply array_at_write_array_ne; [apply array_at_write_array|].
    rewrite Hlen. exact Hdis.
  - apply array_at_write_array.
  - intros q Hq1 Hq2. rewrite !lookup_write_array. rewrite Hlen. cbn [length state_cells].
    repeat case_decide; first [reflexivity | lia].
Qed.

Lemma biquad_recurrence_witness :
  ∃ m' : mem,
    biquad_process_f32 200 300 110 100 2
      (Examples.mono_memory_of Examples.moving_sum_sos F32.one Examples.two) = Ok m'
    ∧ array_at m' 110
        (biquad_run Examples.moving_sum_sos (F32.pos_zero, F32.pos_zero)
           [F32.one; Examples.two]).1
    ∧ array_at m' 300
        (state_cells
           (biquad_run Examples.moving_sum_sos (F32.pos_zero, F32.pos_zero)
              [F32.one; Examples.two]).2)
    ∧ ∀ q, ¬ (110 ≤ q < 110 + 2) → ¬ (300 ≤ q < 300 + 2) →
           m' !! q
           = Examples.mono_memory_of Examples.moving_sum_sos F32.one Examples.two !! q.
Proof.
  apply (biquad_recurrence Examples.moving_sum_sos (F32.pos_zero, F32.pos_zero)
           [F32.one; Examples.two] 200 300 110 100
           (Examples.mono_memory_of Examples.moving_sum_sos F32.one Examples.two)).
  - cbn. repeat split; reflexivity.
  - cbn. repeat split; reflexivity.
  - cbn. repeat split; reflexivity.
  - cbn. repeat split; eexists; reflexivity.
  - cbn. lia.
  - unfold disjoint. cbn. lia.
Defined.

(** The moving sum of [1, 2] is [1, 3], and it leaves [{2, 0}] behind. *)
Example moving_sum_run :
  biquad_run Examples.moving_sum_sos (F32.pos_zero, F32.pos_zero)
    [F32.one; Examples.two]
  = ([F32.one; Examples.three], (Examples.two, F32.pos_zero)).
Proof. vm_compute. reflexivity. Qed.

End BiquadProps.

(** ** One channel: the stage loop against the cascade *)

Module CascadeProps.
Import Mem Sosfilt Model MemProps BiquadProps.

Lemma cascade_run_cons (k : sos) (ks : list sos) (w : float * float)
    (ws : list (float * float)) (xs : list float) :
  cascade_run (k :: ks) (w :: ws) xs
  = ((cascade_run ks ws (biquad_run k w xs).1).1,
     (biquad_run k w xs).2 :: (cascade_run ks ws (biquad_run k w xs).1).2).
Proof.
  cbn [cascade_run]. destruct (biquad_run k w xs) as [ys w'].
  cbn [fst snd]. destruct (cascade_run ks ws ys). reflexivity.
Qed.

Lemma cascade_run_length (ks : list sos) :
  ∀ ws xs, length (cascade_run ks ws xs).1 = length xs.
Proof.
  induction ks as [|k ks IH]; intros [|w ws] xs; try reflexivity.
  rewrite cascade_run_cons. cbn [fst]. rewrite IH. apply biquad_run_length.
Qed.

Lemma cascade_run_states_length (ks : list sos) :
  ∀ ws xs, length (cascade_run ks ws xs).2 = length ws.
Proof.
  induction ks as [|k ks IH]; intros [|w ws] xs; try reflexivity.
  rewrite cascade_run_cons. cbn [snd length]. rewrite IH. reflexivity.
Qed.

Lemma length_coeff_cells (ks : list sos) :
  Z.of_nat (length (coeff_cells ks)) = 5 * Z.of_nat (length ks).
Proof.
  unfold coeff_cells. induction ks as [|k ks IH]; [reflexivity|].
  rewrite bind_cons, length_app. cbn [sos_cells length]. lia.
Qed.

Lemma length_states_cells (ws : list (float * float)) :
  Z.of_nat (length (states_cells ws)) = 2 * Z.of_nat (length ws).
Proof.
  unfold states_cells. induction ws as [|w ws IH]; [reflexivity|].
  rewrite bind_cons, length_app. cbn [state_cells length]. lia.
Qed.

(** Storing one stage's output and state, and then the later stages'
    output and states, leaves what storing the last output and all the
    states leaves. *)
Lemma write_stage_then_rest (states out : Z) (sw sws ys zs : list float) (m : mem) :
  length sw = 2%nat → length ys = length zs →
  disjoint states (2 + Z.of_nat (length sws)) out (Z.of_nat (length zs)) →
  write_array (states + 2) sws
    (write_array out zs (write_array states sw (write_array out ys m)))
  = write_array states (sw ++ sws) (write_array out zs m).
Proof.
  intros Hsw Hlen Hdis. rewrite write_array_app, Hsw. f_equal.
  rewrite write_array_commute by (unfold disjoint in *; lia).
  rewrite write_array_overwrite by exact Hlen. reflexivity.
Qed.

(** The stages after the first: every one filters the output plane in
    place. *)
Lemma stage_loop_inplace (ks : list sos) :
  ∀ (ws : list (float * float)) (coeff states out : Z) (xs : list float) (m : mem),
    length ws = length ks →
    array_at m coeff (coeff_cells ks) →
    array_at m states (states_cells ws) →
    array_at m out xs →
    disjoint coeff (5 * Z.of_nat (length ks)) out (Z.of_nat (length xs)) →
    disjoint coeff (5 * Z.of_nat (length ks)) states (2 * Z.of_nat (length ks)) →
    disjoint states (2 * Z.of_nat (length ks)) out (Z.of_nat (length xs)) →
    stage_loop (length ks) coeff states out out (Z.of_nat (length xs)) m
    = Ok (coeff + 5 * Z.of_nat (length ks), states + 2 * Z.of_nat (length ks),
          write_array states (states_cells (cascade_run ks ws xs).2)
            (write_array out (cascade_run ks ws xs).1 m)).
Proof.
  induction ks as [|k ks IH]; intros [|w ws] coeff states out xs m Hlen Hk Hw Hx
    Hko Hkw Hwo; try discriminate.
  - cbn. rewrite !Z.add_0_r. rewrite write_array_id by exact Hx. reflexivity.
  - injection Hlen as Hlen.
    unfold coeff_cells in Hk. unfold states_cells in Hw.
  rewrite bind_cons in Hk. rewrite bind_cons in Hw.
    apply array_at_app in Hk as [Hk Hks]. apply array_at_app in Hw as [Hw Hws].
    cbn [sos_cells state_cells length] in Hks, Hws.
    change (Z.of_nat 5) with 5 in Hks. change (Z.of_nat 2) with 2 in Hws.
    cbn [length] in Hko, Hkw, Hwo. unfold disjoint in Hko, Hkw, Hwo.
    cbn [stage_loop length].
    rewrite (biquad_process_f32_spec k w xs coeff states out out m Hk Hw Hx
               (array_at_allocated _ _ _ Hx) ltac:(lia)).
    cbn [mbind outcome_bind].
    pose proof (biquad_run_length k xs w) as Hys.
    set (ys := (biquad_run k w xs).1) in *. set (w' := (biquad_run k w xs).2).
    set (m1 := write_array states (state_cells w') (write_array out ys m)).
    assert (Hx1 : array_at m1 out ys).
    { apply array_at_write_array_ne; [apply array_at_write_array|].
      unfold disjoint. cbn [state_cells length]. lia. }
    assert (Hks1 : array_at m1 (coeff + 5) (coeff_cells ks)).
    { pose proof (length_coeff_cells ks).
      do 2 (apply array_at_write_array_ne; [|unfold disjoint; cbn [state_cells length]; lia]).
      exact Hks. }
    assert (Hws1 : array_at m1 (states + 2) (states_cells ws)).
    { pose proof (length_states_cells ws).
      do 2 (apply array_at_write_array_ne; [|unfold disjoint; cbn [state_cells length]; lia]).
      exact Hws. }
    rewrite <- Hys.
    rewrite (IH ws (coeff + 5) (states + 2) out ys m1 Hlen Hks1 Hws1 Hx1)
      by (unfold disjoint; lia).
    rewrite cascade_run_cons. cbn [fst snd]. fold ys w'.
    unfold states_cells at 2. rewrite bind_cons. fold (states_cells (cascade_run ks ws ys).2).
    subst m1. rewrite write_stage_then_rest.
    + replace (coeff + 5 + 5 * Z.of_nat (length ks))
        with (coeff + 5 * Z.of_nat (S (length ks))) by lia.
      replace (states + 2 + 2 * Z.of_nat (length ks))
        with (states + 2 * Z.of_nat (S (length ks))) by lia.
      reflexivity.
    + reflexivity.
    + symmetry. apply cascade_run_length.
    + rewrite length_states_cells, cascade_run_states_length, cascade_run_length.
      unfold disjoint. lia.
Qed.

(** All stages of one channel: the first reads the input plane, the
    others the output plane. *)
Lemma stage_loop_spec (k : sos) (ks : list sos) (w : float * float)
    (ws : list (float * float)) (coeff states out in_ : Z) (xs : list float)
    (m : mem) :
  length ws = length ks →
  array_at m coeff (coeff_cells (k :: ks)) →
  array_at m states (states_cells (w :: ws)) →
  array_at m in_ xs →
  allocated m out (length xs) →
  out ≤ in_ ∨ in_ + Z.of_nat (length xs) ≤ out →
  disjoint coeff (5 * Z.of_nat (length (k :: ks))) out (Z.of_nat (length xs)) →
  disjoint coeff (5 * Z.of_nat (length (k :: ks)))
    states (2 * Z.of_nat (length (k :: ks))) →
  disjoint states (2 * Z.of_nat (length (k :: ks))) out (Z.of_nat (length xs)) →
  stage_loop (length (k :: ks)) coeff states out in_ (Z.of_nat (length xs)) m
  = Ok (coeff + 5 * Z.of_nat (length (k :: ks)),
        states + 2 * Z.of_nat (length (k :: ks)),
        write_array states (states_cells (cascade_run (k :: ks) (w :: ws) xs).2)
          (write_array out (cascade_run (k :: ks) (w :: ws) xs).1 m)).
Proof.
  intros Hlen Hk Hw Hx Hall Hord Hko Hkw Hwo.
  unfold coeff_cells in Hk. unfold states_cells in Hw.
  rewrite bind_cons in Hk. rewrite bind_cons in Hw.
  apply array_at_app in Hk as [Hk Hks]. apply array_at_app in Hw as [Hw Hws].
  cbn [sos_cells state_cells length] in Hks, Hws.
  change (Z.of_nat 5) with 5 in Hks. change (Z.of_nat 2) with 2 in Hws.
  cbn [length] in Hko, Hkw, Hwo |- *. unfold disjoint in Hko, Hkw, Hwo.
  cbn [stage_loop].
  rewrite (biquad_process_f32_spec k w xs coeff states out in_ m Hk Hw Hx Hall Hord).
  cbn [mbind outcome_bind].
  pose proof (biquad_run_length k xs w) as Hys.
  set (ys := (biquad_run k w xs).1) in *. set (w' := (biquad_run k w xs).2).
  set (m1 := write_array states (state_cells w') (write_array out ys m)).
  assert (Hx1 : array_at m1 out ys).
  { apply array_at_write_array_ne; [apply array_at_write_array|].
    unfold disjoint. cbn [state_cells length]. lia. }
  assert (Hks1 : array_at m1 (coeff + 5) (coeff_cells ks)).
  { pose proof (length_coeff_cells ks).
    do 2 (apply array_at_write_array_ne; [|unfold disjoint; cbn [state_cells length]; lia]).
    exact Hks. }
  assert (Hws1 : array_at m1 (states + 2) (states_cells ws)).
  { pose proof (length_states_cells ws).
    do 2 (apply array_at_write_array_ne; [|unfold disjoint; cbn [state_cells length]; lia]).
    exact Hws. }
  rewrite <- Hys.
  rewrite (stage_loop_inplace ks ws (coeff + 5) (states + 2) out ys m1 Hlen Hks1 Hws1 Hx1)
    by (unfold disjoint; lia).
  rewrite cascade_run_cons. cbn [fst snd]. fold ys w'.
  unfold states_cells at 2. rewrite bind_cons. fold (states_cells (cascade_run ks ws ys).2).
  subst m1. rewrite write_stage_then_rest.
  - replace (coeff + 5 + 5 * Z.of_nat (length ks))
      with (coeff + 5 * Z.of_nat (S (length ks))) by lia.
    replace (states + 2 + 2 * Z.of_nat (length ks))
      with (states + 2 * Z.of_nat (S (length ks))) by lia.
    reflexivity.
  - reflexivity.
  - symmetry. apply cascade_run_length.
  - rewrite length_states_cells, cascade_run_states_length, cascade_run_length.
    unfold disjoint. lia.
Qed.

End CascadeProps.

(** ** All channels: the channel loop against the cascades *)

Module ChannelProps.
Import Block Mem Sosfilt Model MemProps BiquadProps CascadeProps.

Lemma sosfilt_run_cons ks kss ws wss xs xss :
  sosfilt_run (ks :: kss) (ws :: wss) (xs :: xss)
  = ((cascade_run ks ws xs).1 :: (sosfilt_run kss wss xss).1,
     (cascade_run ks ws xs).2 :: (sosfilt_run kss wss xss).2).
Proof.
  cbn [sosfilt_run]. destruct (cascade_run ks ws xs).
  destruct (sosfilt_run kss wss xss). reflexivity.
Qed.

Lemma length_concat_planes (F : Z) (xss : list (list float)) :
  Forall (λ xs, Z.of_nat (length xs) = F) xss →
  Z.of_nat (length (concat xss)) = Z.of_nat (length xss) * F.
Proof.
  induction 1 as [|xs xss Hxs _ IH]; [reflexivity|].
  cbn [concat length]. rewrite length_app. lia.
Qed.

Lemma length_states_planes (S : Z) (wss : list (list (float * float))) :
  Forall (λ ws, Z.of_nat (length ws) = S) wss →
  Z.of_nat (length (wss ≫= states_cells)) = 2 * (Z.of_nat (length wss) * S).
Proof.
  induction 1 as [|ws wss Hws _ IH]; [reflexivity|].
  rewrite bind_cons, length_app. cbn [length].
  pose proof (length_states_cells ws). lia.
Qed.

Lemma length_coeff_planes (S : Z) (kss : list (list sos)) :
  Forall (λ ks, Z.of_nat (length ks) = S) kss →
  Z.of_nat (length (kss ≫= coeff_cells)) = 5 * (Z.of_nat (length kss) * S).
Proof.
  induction 1 as [|ks kss Hks _ IH]; [reflexivity|].
  rewrite bind_cons, length_app. cbn [length].
  pose proof (length_coeff_cells ks). lia.
Qed.

Lemma sosfilt_run_planes (F : Z) (kss : list (list sos)) :
  ∀ wss xss,
    length kss = length xss → length wss = length xss →
    Forall (λ xs, Z.of_nat (length xs) = F) xss →
    length (sosfilt_run kss wss xss).1 = length xss
    ∧ Forall (λ ys, Z.of_nat (length ys) = F) (sosfilt_run kss wss xss).1.
Proof.
  induction kss as [|ks kss IH]; intros [|ws wss] [|xs xss] Hk Hw HF;
    try discriminate; [split; [reflexivity | constructor]..|].
  rewrite sosfilt_run_cons. cbn [fst length].
  injection Hk as Hk. injection Hw as Hw.
  apply Forall_cons in HF as [Hxs HF].
  destruct (IH wss xss Hk Hw HF) as [Hlen Hall].
  split; [congruence|]. constructor; [|exact Hall].
  rewrite cascade_run_length. exact Hxs.
Qed.

Lemma sosfilt_run_states (S : Z) (kss : list (list sos)) :
  ∀ wss xss,
    length kss = length xss → length wss = length xss →
    Forall (λ ws, Z.of_nat (length ws) = S) wss →
    length (sosfilt_run kss wss xss).2 = length xss
    ∧ Forall (λ ws, Z.of_nat (length ws) = S) (sosfilt_run kss wss xss).2.
Proof.
  induction kss as [|ks kss IH]; intros [|ws wss] [|xs xss] Hk Hw HS;
    try discriminate; [split; [reflexivity | constructor]..|].
  rewrite sosfilt_run_cons. cbn [snd length].
  injection Hk as Hk. injection Hw as Hw.
  apply Forall_cons in HS as [Hws HS].
  destruct (IH wss xss Hk Hw HS) as [Hlen Hall].
  split; [congruence|]. constructor; [|exact Hall].
  rewrite cascade_run_states_length. exact Hws.
Qed.

Lemma mul_u32_small (a b : Z) : 0 ≤ a * b < 2 ^ 32 → mul_u32 a b = a * b.
Proof. intros Hab. unfold mul_u32. apply Z.mod_small. exact Hab. Qed.

(** The channel loop from channel [k] on, [C] channels in all.  The
    invariant: the planes and states of the channels still to come and
    all coefficient blocks are as the caller laid them out. *)
Lemma chan_loop_spec (self : spark_sosfilt_f32_t) (S F C ib ob cb sb : Z) :
  n_stages self = S → frames (input (header self)) = F →
  base (input (header self)) = ib → base (output (header self)) = ob →
  coefficients self = cb → states self = sb →
  0 < S → 0 ≤ F → C * F ≤ 2 ^ 32 →
  ob ≤ ib ∨ ib + C * F ≤ ob →
  disjoint cb (coeff_span (share_sos self) S C) ob (C * F) →
  disjoint cb (coeff_span (share_sos self) S C) sb (2 * (C * S)) →
  disjoint sb (2 * (C * S)) ob (C * F) →
  disjoint sb (2 * (C * S)) ib (C * F) →
  ∀ (xss : list (list float)) (kss : list (list sos))
    (wss : list (list (float * float))) (k coeff : Z) (m : mem),
    0 ≤ k → k + Z.of_nat (length xss) = C →
    length kss = length xss → length wss = length xss →
    Forall (λ xs, Z.of_nat (length xs) = F) xss →
    Forall (λ ks, Z.of_nat (length ks) = S) kss →
    Forall (λ ws, Z.of_nat (length ws) = S) wss →
    (share_sos self = false → coeff = cb + 5 * (k * S)) →
    (∀ (j : nat) ks, kss !! j = Some ks →
       array_at m (cb + coeff_offset (share_sos self) S (k + Z.of_nat j) 0)
         (coeff_cells ks)) →
    array_at m (sb + 2 * (k * S)) (wss ≫= states_cells) →
    array_at m (ib + k * F) (concat xss) →
    allocated m (ob + k * F) (length (concat xss)) →
    chan_loop self (length xss) k coeff (sb + 2 * (k * S)) m
    = Ok (write_array (sb + 2 * (k * S)) ((sosfilt_run kss wss xss).2 ≫= states_cells)
            (write_array (ob + k * F) (concat (sosfilt_run kss wss xss).1) m)).
Proof.
  intros HS HF Hib Hob Hcb Hsb HSpos HFpos Hspan Hord Hko Hkw Hwo Hwi.
  unfold disjoint in Hko, Hkw, Hwo, Hwi.
  induction xss as [|xs xss IH];
    intros [|ks kss] [|ws wss] k coeff m Hk HC Hlk Hlw HFs HSk HSw Hcur Hks Hws Hxs Hall;
    try discriminate; [reflexivity|].
  injection Hlk as Hlk. injection Hlw as Hlw.
  apply Forall_cons in HFs as [Hxs_len HFs].
  apply Forall_cons in HSk as [Hks_len HSk].
  apply Forall_cons in HSw as [Hws_len HSw].
  cbn [length] in HC.
  destruct ks as [|k0 ks0]; [cbn in Hks_len; lia|].
  destruct ws as [|w0 ws0]; [cbn in Hws_len; lia|].
  (* arithmetic facts on the plane and block offsets *)
  assert (HkF : 0 ≤ k * F) by nia.
  assert (HkS : 0 ≤ k * S) by nia.
  assert (HkF1 : k * F + F ≤ C * F) by nia.
  assert (HkS1 : k * S + S ≤ C * S) by nia.
  assert (HkF2 : k * F < 2 ^ 32).
  { destruct (decide (F = 0)) as [-> | HF0]; [rewrite Z.mul_0_r; reflexivity | lia]. }
  assert (Hrest_F : Z.of_nat (length (concat xss)) = Z.of_nat (length xss) * F)
    by (apply length_concat_planes; exact HFs).
  assert (Hrest_S : Z.of_nat (length (wss ≫= states_cells))
                    = 2 * (Z.of_nat (length wss) * S))
    by (apply length_states_planes; exact HSw).
  assert (HnF : k * F + F + Z.of_nat (length xss) * F = C * F) by nia.
  assert (HnS : k * S + S + Z.of_nat (length xss) * S = C * S) by nia.
  (* the layout of channel [k] *)
  cbn [concat] in Hxs, Hall. rewrite length_app in Hall.
  apply array_at_app in Hxs as [Hx Hxs]. apply allocated_add in Hall as [Hout Hall].
  rewrite bind_cons in Hws. apply array_at_app in Hws as [Hw Hws].
  pose proof (length_states_cells (w0 :: ws0)) as Hlen_w.
  pose proof (length_coeff_cells (k0 :: ks0)) as Hlen_k.
  rewrite Hws_len in Hlen_w. rewrite Hks_len in Hlen_k.
  rewrite Hlen_w in Hws. rewrite Hxs_len in Hxs, Hall.
  pose proof (Hks 0%nat _ eq_refl) as Hk0. rewrite Z.add_0_r in Hk0.
  set (kpos := cb + coeff_offset (share_sos self) S k 0) in *.
  assert (Hkpos : kpos = if share_sos self then cb else coeff).
  { subst kpos. unfold coeff_offset. destruct (share_sos self); [lia|].
    rewrite (Hcur eq_refl). lia. }
  assert (Hkpos_lo : cb ≤ kpos
                     ∧ kpos + 5 * S ≤ cb + coeff_span (share_sos self) S C).
  { subst kpos. unfold coeff_offset, coeff_span. destruct (share_sos self); lia. }
  (* run the stages of channel [k] *)
  cbn [chan_loop length]. fold (share_sos self).
  rewrite HS, HF, Hib, Hob, Hcb, <- Hkpos.
  rewrite mul_u32_small by lia.
  pose proof (stage_loop_spec k0 ks0 w0 ws0 kpos (sb + 2 * (k * S)) (ob + k * F)
                (ib + k * F) xs m) as Hst.
  rewrite Hks_len, Hxs_len in Hst.
  replace (Z.to_nat S) with (length (k0 :: ks0)) by lia.
  rewrite Hst; clear Hst;
    [| cbn [length] in Hks_len, Hws_len; lia
     | exact Hk0 | exact Hw | exact Hx | exact Hout
     | lia
     | unfold disjoint; lia..].
  cbn [mbind outcome_bind].
  pose proof (cascade_run_length (k0 :: ks0) (w0 :: ws0) xs) as Hys_len.
  pose proof (cascade_run_states_length (k0 :: ks0) (w0 :: ws0) xs) as Hws'_len.
  set (ys := (cascade_run (k0 :: ks0) (w0 :: ws0) xs).1) in *.
  set (ws' := (cascade_run (k0 :: ks0) (w0 :: ws0) xs).2) in *.
  pose proof (length_states_cells ws') as Hlen_w'.
  rewrite Hws'_len, Hws_len in Hlen_w'.
  set (m1 := write_array (sb + 2 * (k * S)) (states_cells ws')
               (write_array (ob + k * F) ys m)).
  (* the later channels *)
  replace (sb + 2 * (k * S) + 2 * S) with (sb + 2 * ((k + 1) * S)) by lia.
  rewrite (IH kss wss (k + 1) (kpos + 5 * S) m1); try assumption; try lia.
  - rewrite sosfilt_run_cons. cbn [fst snd concat]. fold ys ws'.
    rewrite bind_cons. rewrite !write_array_app.
    rewrite Hlen_w', Hys_len, Hxs_len.
    replace (sb + 2 * (k * S) + 2 * S) with (sb + 2 * ((k + 1) * S)) by lia.
    replace (ob + k * F + F) with (ob + (k + 1) * F) by lia.
    subst m1.
    rewrite (write_array_commute (ob + (k + 1) * F) (sb + 2 * (k * S)));
      [reflexivity|].
    destruct (sosfilt_run_planes F kss wss xss) as [Hn HFy]; try assumption.
    rewrite (length_concat_planes F _ HFy), Hn, Hlen_w'.
    unfold disjoint. lia.
  - intros Hsh. subst kpos. unfold coeff_offset. rewrite Hsh. lia.
  - intros j ks Hj. specialize (Hks (Datatypes.S j) ks Hj).
    replace (k + 1 + Z.of_nat j) with (k + Z.of_nat (Datatypes.S j)) by lia.
    pose proof (length_coeff_cells ks) as Hlen_ks.
    assert (Z.of_nat (length ks) = S) as Hks_S.
    { eapply (proj1 (Forall_lookup _ _) HSk); exact Hj. }
    pose proof (lookup_lt_Some _ _ _ Hj) as Hj_lt.
    assert (Hpos : cb ≤ cb + coeff_offset (share_sos self) S (k + Z.of_nat (Datatypes.S j)) 0
                   ∧ cb + coeff_offset (share_sos self) S (k + Z.of_nat (Datatypes.S j)) 0
                     + 5 * S ≤ cb + coeff_span (share_sos self) S C).
    { unfold coeff_offset, coeff_span. destruct (share_sos self); nia. }
    subst m1.
    do 2 (apply array_at_write_array_ne; [|unfold disjoint; lia]).
    exact Hks.
  - replace (sb + 2 * ((k + 1) * S)) with (sb + 2 * (k * S) + 2 * S) by lia.
    subst m1.
    do 2 (apply array_at_write_array_ne; [|unfold disjoint; lia]).
    exact Hws.
  - replace (ib + (k + 1) * F) with (ib + k * F + F) by lia.
    subst m1.
    do 2 (apply array_at_write_array_ne; [|unfold disjoint; lia]).
    exact Hxs.
  - replace (ob + (k + 1) * F) with (ob + k * F + F) by lia.
    subst m1. do 2 apply allocated_write_array. exact Hall.
Qed.

End ChannelProps.

(** ** The kernel against the cascades *)

Module KernelRefinement.
Import Block Mem Sosfilt Model MemProps BiquadProps CascadeProps ChannelProps.

Lemma coeff_blocks_at (m : mem) (S : Z) (kss : list (list sos)) :
  Forall (λ ks, Z.of_nat (length ks) = S) kss →
  ∀ (p : Z) (j : nat) (ks : list sos),
    array_at m p (kss ≫= coeff_cells) →
    kss !! j = Some ks →
    array_at m (p + 5 * (Z.of_nat j * S)) (coeff_cells ks).
Proof.
  induction 1 as [|ks0 kss Hks0 _ IH]; intros p j ks Harr Hj; [discriminate|].
  rewrite bind_cons in Harr. apply array_at_app in Harr as [Hhd Htl].
  rewrite length_coeff_cells, Hks0 in Htl.
  destruct j as [|j].
  - injection Hj as <-. rewrite Z.mul_0_l, Z.mul_0_r, Z.add_0_r. exact Hhd.
  - specialize (IH (p + 5 * S) j ks Htl Hj).
    replace (p + 5 * (Z.of_nat (Datatypes.S j) * S))
      with (p + 5 * S + 5 * (Z.of_nat j * S)) by lia.
    exact IH.
Qed.

Section Kernel.
Context `{Build}.

(** A validated instance run on a memory laid out for it returns, having
    stored the output planes and the final states of [sosfilt_run] and
    nothing else. *)
Lemma sosfilt_refines (addr : Z) (self : spark_sosfilt_f32_t) (m : mem)
    (kss : list (list sos)) (wss : list (list (float * float)))
    (xss : list (list float)) :
  spark_block_validate (Some (addr, header self)) required_flags = 0 →
  coefficients self ≠ 0 → states self ≠ 0 → 0 < n_stages self →
  layout self m kss wss xss →
  spark_sosfilt_f32 (Some (addr, self)) m
  = Ok (write_array (states self) ((sosfilt_run kss wss xss).2 ≫= states_cells)
          (write_array (base (output (header self)))
             (concat (sosfilt_run kss wss xss).1) m)).
Proof.
  intros Hval Hc Hs HS [HC Hlk Hlw HFs HSk HSw Hspan Hk Hw Hx Hout Hord Hko Hkw Hwo Hwi].
  rewrite KernelProps.sosfilt_enters_loop by assumption.
  destruct (KernelProps.validated_header _ _ Hval) as ((_ & Hci & Hfi) & _).
  rewrite <- HC, Nat2Z.id.
  pose proof (chan_loop_spec self (n_stages self) (frames (input (header self)))
                (channels (input (header self))) (base (input (header self)))
                (base (output (header self))) (coefficients self) (states self)
                eq_refl eq_refl eq_refl eq_refl eq_refl eq_refl HS ltac:(lia)
                Hspan Hord Hko Hkw Hwo Hwi xss kss wss 0 (coefficients self) m
                ltac:(lia) ltac:(lia) Hlk Hlw HFs HSk HSw) as Hloop.
  rewrite !Z.mul_0_l, !Z.mul_0_r, !Z.add_0_r in Hloop.
  apply Hloop; try assumption; [reflexivity|].
  intros j ks Hj. rewrite Z.add_0_l.
  unfold coeff_offset. destruct (share_sos self) eqn:Hsh.
  - destruct Hk as (ks0 & -> & Hk0).
    apply lookup_replicate in Hj as [-> _]. rewrite Z.mul_0_r, Z.add_0_r. exact Hk0.
  - rewrite Z.add_0_r. apply (coeff_blocks_at m _ kss HSk); assumption.
Qed.

End Kernel.

(** The one-channel example is laid out as the kernel expects. *)
Lemma mono_layout (k : sos) (x0 x1 : float) :
  layout Examples.mono_instance (Examples.mono_memory_of k x0 x1)
    [[k]] [[(F32.pos_zero, F32.pos_zero)]] [[x0; x1]].
Proof.
  constructor; try reflexivity; try (repeat constructor; reflexivity).
  - vm_compute. discriminate.
  - cbn. repeat split; eexists; reflexivity.
  - right. vm_compute. discriminate.
  - right. vm_compute. discriminate.
  - left. vm_compute. discriminate.
  - right. vm_compute. discriminate.
  - right. vm_compute. discriminate.
Qed.

End KernelRefinement.

(** ** State continuity across chunks *)

Module ContinuityProps.
Import Block Mem Sosfilt Model MemProps BiquadProps CascadeProps ChannelProps.

Lemma biquad_run_app (k : sos) (xs1 xs2 : list float) :
  ∀ w, biquad_run k w (xs1 ++ xs2)
       = ((biquad_run k w xs1).1 ++ (biquad_run k (biquad_run k w xs1).2 xs2).1,
          (biquad_run k (biquad_run k w xs1).2 xs2).2).
Proof.
  induction xs1 as [|x xs1 IH]; intros w.
  - cbn. destruct (biquad_run k w xs2). reflexivity.
  - cbn [app]. rewrite !biquad_run_cons. cbv zeta. cbn [fst snd].
    rewrite IH. reflexivity.
Qed.

Lemma cascade_run_app (ks : list sos) :
  ∀ ws xs1 xs2,
    cascade_run ks ws (xs1 ++ xs2)
    = ((cascade_run ks ws xs1).1 ++ (cascade_run ks (cascade_run ks ws xs1).2 xs2).1,
       (cascade_run ks (cascade_run ks ws xs1).2 xs2).2).
Proof.
  induction ks as [|k ks IH]; intros [|w ws] xs1 xs2; try reflexivity.
  rewrite !cascade_run_cons. cbn [fst snd].
  rewrite cascade_run_cons. cbn [fst snd].
  rewrite biquad_run_app. cbn [fst snd]. rewrite IH. reflexivity.
Qed.

(** The same on planes: every channel continues from its own states. *)
Lemma sosfilt_run_app (kss : list (list sos)) :
  ∀ wss xss1 xss2,
    length xss1 = length xss2 →
    sosfilt_run kss wss (zip_with app xss1 xss2)
    = (zip_with app (sosfilt_run kss wss xss1).1
         (sosfilt_run kss (sosfilt_run kss wss xss1).2 xss2).1,
       (sosfilt_run kss (sosfilt_run kss wss xss1).2 xss2).2).
Proof.
  induction kss as [|ks kss IH]; intros [|ws wss] [|xs1 xss1] [|xs2 xss2] Hlen;
    try discriminate; try reflexivity.
  injection Hlen as Hlen. cbn [zip_with].
  rewrite !sosfilt_run_cons. cbn [fst snd zip_with].
  rewrite sosfilt_run_cons. cbn [fst snd].
  rewrite cascade_run_app. cbn [fst snd]. rewrite (IH wss xss1 xss2 Hlen).
  reflexivity.
Qed.

Section Kernel.
Context `{Build}.

(** Pointing a validated instance at other non-null buffers of a non-zero
    frame count keeps it valid. *)
Lemma with_io_validates (addr : Z) (self : spark_sosfilt_f32_t) (ib ob n : Z) :
  spark_block_validate (Some (addr, header self)) required_flags = 0 →
  ib ≠ 0 → ob ≠ 0 → 0 < n →
  spark_block_validate (Some (addr, header (with_io self ib ob n))) required_flags = 0.
Proof.
  intros Hval Hib Hob Hn.
  apply BlockProps.validate_success_iff in Hval as [Hg Hrules].
  apply BlockProps.validate_success_iff. split.
  - destruct Hg as (a & b & [= <- <-] & Hrest). eexists _, _. split; [reflexivity|].
    exact Hrest.
  - unfold type_rules in *. cbv zeta in *.
    change (spark_block_get_type required_flags =? SPARK_BLOCK_PROCESS) with true in *.
    cbv iota in *. rewrite !andb_true_iff in *.
    destruct Hrules as ((((Hsim & Hvi) & Hvo) & Hti) & Hto).
    apply BlockProps.is_valid_iff in Hvi as (_ & Hci & _).
    apply BlockProps.is_valid_iff in Hvo as (_ & Hco & _).
    repeat split.
    + unfold spark_buffer_is_similar, buffer_ptr_eqb in *.
      rewrite bool_decide_eq_false_2 in * by discriminate.
      cbn [with_io header input output Block.flags channels frames].
      rewrite !andb_true_iff, !Z.eqb_eq in *. tauto.
    + apply BlockProps.is_valid_iff. cbn. unfold valid_buffer. cbn. tauto.
    + apply BlockProps.is_valid_iff. cbn. unfold valid_buffer. cbn. tauto.
    + exact Hti.
    + exact Hto.
Qed.

(** The layout of a one-channel run, field by field. *)
Lemma layout_single (self : spark_sosfilt_f32_t) (m : mem) (ks : list sos)
    (ws : list (float * float)) (xs : list float) :
  channels (input (header self)) = 1 →
  Z.of_nat (length xs) = frames (input (header self)) →
  Z.of_nat (length ks) = n_stages self →
  Z.of_nat (length ws) = n_stages self →
  frames (input (header self)) ≤ 2 ^ 32 →
  array_at m (coefficients self) (coeff_cells ks) →
  array_at m (states self) (states_cells ws) →
  array_at m (base (input (header self))) xs →
  allocated m (base (output (header self))) (length xs) →
  base (output (header self)) ≤ base (input (header self))
  ∨ base (input (header self)) + frames (input (header self))
    ≤ base (output (header self)) →
  disjoint (coefficients self) (5 * n_stages self)
    (base (output (header self))) (frames (input (header self))) →
  disjoint (coefficients self) (5 * n_stages self) (states self) (2 * n_stages self) →
  disjoint (states self) (2 * n_stages self)
    (base (output (header self))) (frames (input (header self))) →
  disjoint (states self) (2 * n_stages self)
    (base (input (header self))) (frames (input (header self))) →
  layout self m [ks] [ws] [xs].
Proof.
  intros HC HF HSk HSw Hspan Hk Hw Hx Hout Hord Hko Hkw Hwo Hwi.
  assert (Hcs : coeff_span (share_sos self) (n_stages self) 1 = 5 * n_stages self).
  { unfold coeff_span. destruct (share_sos self); lia. }
  unfold disjoint in *.
  constructor; rewrite ?HC, ?Hcs, ?Z.mul_1_l; unfold disjoint;
    try assumption; try reflexivity; try (symmetry; exact HC);
    try (repeat constructor; assumption).
  - destruct (share_sos self).
    + exists ks. split; [reflexivity | exact Hk].
    + rewrite bind_singleton. exact Hk.
  - rewrite bind_singleton. exact Hw.
  - cbn [concat]. rewrite app_nil_r. exact Hx.
  - cbn [concat]. rewrite app_nil_r. exact Hout.
Qed.

Lemma layout_single_inv (self : spark_sosfilt_f32_t) (m : mem) (ks : list sos)
    (ws : list (float * float)) (xs : list float) :
  layout self m [ks] [ws] [xs] →
  channels (input (header self)) = 1
  ∧ Z.of_nat (length xs) = frames (input (header self))
  ∧ Z.of_nat (length ks) = n_stages self
  ∧ Z.of_nat (length ws) = n_stages self
  ∧ frames (input (header self)) ≤ 2 ^ 32
  ∧ array_at m (coefficients self) (coeff_cells ks)
  ∧ array_at m (states self) (states_cells ws)
  ∧ array_at m (base (input (header self))) xs
  ∧ allocated m (base (output (header self))) (length xs)
  ∧ (base (output (header self)) ≤ base (input (header self))
     ∨ base (input (header self)) + frames (input (header self))
       ≤ base (output (header self)))
  ∧ disjoint (coefficients self) (5 * n_stages self)
      (base (output (header self))) (frames (input (header self)))
  ∧ disjoint (coefficients self) (5 * n_stages self) (states self) (2 * n_stages self)
  ∧ disjoint (states self) (2 * n_stages self)
      (base (output (header self))) (frames (input (header self)))
  ∧ disjoint (states self) (2 * n_stages self)
      (base (input (header self))) (frames (input (header self))).
Proof.
  intros [HC Hlk Hlw HFs HSk HSw Hspan Hk Hw Hx Hout Hord Hko Hkw Hwo Hwi].
  cbn [length] in HC. change (Z.of_nat 1) with 1 in HC. symmetry in HC.
  assert (Hcs : coeff_span (share_sos self) (n_stages self) 1 = 5 * n_stages self).
  { unfold coeff_span. destruct (share_sos self); lia. }
  rewrite HC, ?Hcs, ?Z.mul_1_l in *.
  apply Forall_inv in HFs. apply Forall_inv in HSk. apply Forall_inv in HSw.
  rewrite bind_singleton in Hw. cbn [concat] in Hx, Hout. rewrite app_nil_r in Hx, Hout.
  assert (Hk' : array_at m (coefficients self) (coeff_cells ks)).
  { destruct (share_sos self).
    - destruct Hk as (ks0 & [= ->] & Hk0). exact Hk0.
    - rewrite bind_singleton in Hk. exact Hk. }
  tauto.
Qed.

Lemma sosfilt_run_single (ks : list sos) (ws : list (float * float)) (xs : list float) :
  sosfilt_run [ks] [ws] [xs] = ([(cascade_run ks ws xs).1], [(cascade_run ks ws xs).2]).
Proof. rewrite sosfilt_run_cons. reflexivity. Qed.

(** A one-channel run, in terms of the cascade. *)
Lemma sosfilt_refines_single (addr : Z) (self : spark_sosfilt_f32_t) (m : mem)
    (ks : list sos) (ws : list (float * float)) (xs : list float) :
  spark_block_validate (Some (addr, header self)) required_flags = 0 →
  coefficients self ≠ 0 → states self ≠ 0 → 0 < n_stages self →
  layout self m [ks] [ws] [xs] →
  spark_sosfilt_f32 (Some (addr, self)) m
  = Ok (write_array (states self) (states_cells (cascade_run ks ws xs).2)
          (write_array (base (output (header self))) (cascade_run ks ws xs).1 m)).
Proof.
  intros Hval Hc Hs HS Hlay.
  rewrite (KernelRefinement.sosfilt_refines addr self m _ _ _ Hval Hc Hs HS Hlay).
  rewrite sosfilt_run_single. cbn [fst snd concat].
  rewrite bind_singleton, app_nil_r. reflexivity.
Qed.

Lemma array_at_nonnull (m : mem) (p : Z) (l : list float) :
  m !! 0 = None → array_at m p l → l ≠ [] → p ≠ 0.
Proof.
  intros Hnull Harr Hl ->. destruct l as [|x l]; [congruence|].
  cbn in Harr. destruct Harr as [Hx _]. congruence.
Qed.

(** C5. A one-channel filter instance run on the first chunk of a signal
    and then, with the states it left, on the second chunk leaves the
    memory that one run over both chunks leaves: the same output samples
    and the same final states. *)
Theorem chunk_continuity (addr : Z) (self : spark_sosfilt_f32_t) (m : mem)
    (ks : list sos) (ws : list (float * float)) (xs1 xs2 : list float) :
  let ib := base (input (header self)) in
  let ob := base (output (header self)) in
  let n1 := Z.of_nat (length xs1) in
  let n2 := Z.of_nat (length xs2) in
  spark_block_validate (Some (addr, header self)) required_flags = 0 →
  0 < n_stages self → xs1 ≠ [] → xs2 ≠ [] →
  m !! 0 = None →
  layout self m [ks] [ws] [xs1 ++ xs2] →
  ∃ m' : mem,
    spark_sosfilt_f32 (Some (addr, self)) m = Ok m'
    ∧ (spark_sosfilt_f32 (Some (addr, with_io self ib ob n1)) m
       ≫= spark_sosfilt_f32 (Some (addr, with_io self (ib + n1) (ob + n1) n2)))
      = Ok m'
    ∧ array_at m' ob (cascade_run ks ws (xs1 ++ xs2)).1
    ∧ array_at m' (states self) (states_cells (cascade_run ks ws (xs1 ++ xs2)).2).
Proof.
  intros ib ob n1 n2 Hval HS Hxs1 Hxs2 Hnull Hlay.
  pose proof (layout_single_inv _ _ _ _ _ Hlay)
    as (HC & HF & HSk & HSw & Hspan & Hk & Hw & Hx & Hout & Hord & Hko & Hkw & Hwo & Hwi).
  rewrite length_app in HF, Hout. rewrite Nat2Z.inj_add in HF.
  fold ib ob n1 n2 in HF, Hx, Hout, Hord, Hko, Hwo, Hwi.
  apply array_at_app in Hx as [Hx1 Hx2]. apply allocated_add in Hout as [Hout1 Hout2].
  fold n1 in Hx2, Hout2.
  assert (Hn1 : 0 < n1) by (destruct xs1; [congruence | cbn in n1; lia]).
  assert (Hn2 : 0 < n2) by (destruct xs2; [congruence | cbn in n2; lia]).
  assert (Hks : ks ≠ []) by (intros ->; cbn in HSk; lia).
  assert (Hws : ws ≠ []) by (intros ->; cbn in HSw; lia).
  assert (Hc : coefficients self ≠ 0).
  { apply (array_at_nonnull m _ _ Hnull Hk). destruct ks as [|k ks']; [congruence|].
    discriminate. }
  assert (Hs : states self ≠ 0).
  { apply (array_at_nonnull m _ _ Hnull Hw). destruct ws as [|w ws']; [congruence|].
    discriminate. }
  destruct (KernelProps.validated_header _ _ Hval) as ((Hib & _) & (Hob & _) & _).
  fold ib in Hib. fold ob in Hob.
  assert (Hib2 : ib + n1 ≠ 0) by (apply (array_at_nonnull m _ _ Hnull Hx2 Hxs2)).
  assert (Hob2 : ob + n1 ≠ 0).
  { intros Hz. rewrite Hz in Hout2. destruct xs2; [congruence|].
    cbn in Hout2. destruct Hout2 as [[v Hv] _]. congruence. }
  unfold disjoint in Hko, Hkw, Hwo, Hwi.
  (* the run over both chunks *)
  rewrite (sosfilt_refines_single addr self m ks ws (xs1 ++ xs2) Hval Hc Hs HS Hlay).
  fold ob. eexists. split; [reflexivity|].
  (* the first chunk *)
  rewrite (sosfilt_refines_single addr (with_io self ib ob n1) m ks ws xs1);
    [| apply with_io_validates; assumption | assumption.. |].
  2:{ apply layout_single; cbn [with_io header input output base channels frames
                               coefficients states n_stages];
        try assumption; try reflexivity; unfold disjoint; lia. }
  cbn [mbind outcome_bind with_io header output base states].
  set (ys1 := (cascade_run ks ws xs1).1). set (ws1 := (cascade_run ks ws xs1).2).
  assert (Hys1 : length ys1 = length xs1) by apply cascade_run_length.
  assert (Hws1 : length ws1 = length ws) by apply cascade_run_states_length.
  pose proof (length_states_cells ws1) as Hws1c. rewrite Hws1, HSw in Hws1c.
  pose proof (length_coeff_cells ks) as Hksc. rewrite HSk in Hksc.
  set (m1 := write_array (states self) (states_cells ws1) (write_array ob ys1 m)).
  (* the second chunk, on the memory the first run left *)
  rewrite (sosfilt_refines_single addr (with_io self (ib + n1) (ob + n1) n2) m1 ks ws1 xs2);
    [| apply with_io_validates; assumption | assumption.. |].
  2:{ apply layout_single; cbn [with_io header input output base channels frames
                               coefficients states n_stages];
        try assumption; try reflexivity; try lia; try (unfold disjoint; lia).
      - subst m1.
        do 2 (apply array_at_write_array_ne; [|unfold disjoint; lia]). exact Hk.
      - subst m1. apply array_at_write_array.
      - subst m1.
        do 2 (apply array_at_write_array_ne; [|unfold disjoint; lia]). exact Hx2.
      - subst m1. do 2 apply allocated_write_array. exact Hout2. }
  cbn [with_io header output base states].
  rewrite cascade_run_app. cbn [fst snd]. fold ys1 ws1.
  set (ys2 := (cascade_run ks ws1 xs2).1). set (ws2 := (cascade_run ks ws1 xs2).2).
  assert (Hys2 : length ys2 = length xs2) by apply cascade_run_length.
  assert (Hws2 : length ws2 = length ws1) by apply cascade_run_states_length.
  pose proof (length_states_cells ws2) as Hws2c. rewrite Hws2, Hws1, HSw in Hws2c.
  assert (Hmem : write_array (states self) (states_cells ws2)
                   (write_array (ob + n1) ys2 m1)
                 = write_array (states self) (states_cells ws2)
                     (write_array ob (ys1 ++ ys2) m)).
  { subst m1. rewrite write_array_app, Hys1. fold n1.
    rewrite (write_array_commute (ob + n1) (states self))
      by (unfold disjoint; lia).
    apply write_array_overwrite. lia. }
  rewrite Hmem. split; [reflexivity|]. split.
  - apply array_at_write_array_ne; [apply array_at_write_array|].
    rewrite length_app. unfold disjoint. lia.
  - apply array_at_write_array.
Qed.

End Kernel.

Import Examples.

Lemma chunk_continuity_witness :
  ∃ m' : mem,
    spark_sosfilt_f32 (H := lp64_release) (Some (64, mono_instance))
      (mono_memory_of moving_sum_sos F32.one two) = Ok m'
    ∧ (spark_sosfilt_f32 (H := lp64_release)
         (Some (64, with_io mono_instance 100 110 1))
         (mono_memory_of moving_sum_sos F32.one two)
       ≫= spark_sosfilt_f32 (H := lp64_release)
            (Some (64, with_io mono_instance 101 111 1)))
      = Ok m'
    ∧ array_at m' 110
        (cascade_run [moving_sum_sos] [(F32.pos_zero, F32.pos_zero)]
           ([F32.one] ++ [two])).1
    ∧ array_at m' 300
        (states_cells
           (cascade_run [moving_sum_sos] [(F32.pos_zero, F32.pos_zero)]
              ([F32.one] ++ [two])).2).
Proof.
  apply (chunk_continuity (H := lp64_release) 64 mono_instance
           (mono_memory_of moving_sum_sos F32.one two) [moving_sum_sos]
           [(F32.pos_zero, F32.pos_zero)] [F32.one] [two]).
  - reflexivity.
  - reflexivity.
  - discriminate.
  - discriminate.
  - reflexivity.
  - apply (KernelRefinement.mono_layout moving_sum_sos F32.one two).
Defined.

(** On the example: the second chunk's first output, 3, carries the
    first chunk's last sample. *)
Example chunked_moving_sum :
  (λ o, peek o <$> [110; 111; 300; 301])
    (spark_sosfilt_f32 (H := lp64_release)
       (Some (64, with_io mono_instance 100 110 1))
       (mono_memory_of moving_sum_sos F32.one two)
     ≫= spark_sosfilt_f32 (H := lp64_release)
          (Some (64, with_io mono_instance 101 111 1)))
  = Some <$> [F32.one; three; two; F32.pos_zero].
Proof. vm_compute. reflexivity. Qed.

End ContinuityProps.

(** ** Single-precision facts *)

Module F32Props.

Lemma shr_fexp_canonical (m : positive) (e : Z) :
  fexp F32.prec F32.emax (Z.pos (digits2_pos m) + e) = e →
  shr_fexp F32.prec F32.emax (Z.pos m) e loc_Exact
  = ({| shr_m := Z.pos m; shr_r := false; shr_s := false |}, e).
Proof.
  unfold shr_fexp, Zdigits2. intros ->. rewrite Z.sub_diag. reflexivity.
Qed.

(** The exact product [2^23 * m] at exponent [e - 23] shifts back to [m]
    at exponent [e]: nothing is rounded away. *)
Lemma shr_fexp_shifted (m : positive) (e : Z) :
  fexp F32.prec F32.emax (Z.pos (digits2_pos m) + e) = e →
  shr_fexp F32.prec F32.emax (Z.pos (8388608 * m)) (-23 + e) loc_Exact
  = ({| shr_m := Z.pos m; shr_r := false; shr_s := false |}, e).
Proof.
  unfold shr_fexp, Zdigits2. intros Hcan.
  change (8388608 * m)%positive
    with (m~0~0~0~0~0~0~0~0~0~0~0~0~0~0~0~0~0~0~0~0~0~0~0)%positive.
  cbn [digits2_pos]. rewrite !Pos2Z.inj_succ.
  replace (fexp _ _ _ - _) with 23.
  - cbn [shr shr_record_of_loc iter_pos shr_1 orb]. f_equal. lia.
  - match goal with |- context [fexp _ _ ?x] =>
      replace x with (Z.pos (digits2_pos m) + e) by lia end.
    rewrite Hcan. lia.
Qed.

Lemma mul_one_finite (s : bool) (m : positive) (e : Z) :
  F32.valid (S754_finite s m e) = true →
  F32.mul F32.one (S754_finite s m e) = S754_finite s m e.
Proof.
  unfold F32.valid, valid_binary, bounded, canonical_mantissa.
  intros [Hcan Hle]%andb_true_iff. apply Z.eqb_eq in Hcan.
  unfold F32.mul, F32.one, SFmul, binary_round_aux.
  rewrite shr_fexp_shifted by exact Hcan.
  cbn [shr_m loc_of_shr_record round_nearest_even].
  rewrite shr_fexp_canonical by exact Hcan.
  cbn [shr_m xorb]. rewrite Hle. reflexivity.
Qed.

Lemma mul_one_zero (s : bool) : F32.mul F32.one (S754_zero s) = S754_zero s.
Proof. reflexivity. Qed.

Lemma mul_zero_finite (z x : F32.float) :
  F32.is_zero z = true → F32.is_finite x = true → F32.is_zero (F32.mul z x) = true.
Proof. destruct z, x; try discriminate; reflexivity. Qed.

Lemma add_zero_zero (a b : F32.float) :
  F32.is_zero a = true → F32.is_zero b = true → F32.is_zero (F32.add a b) = true.
Proof.
  destruct a as [sa| | |], b as [sb| | |]; try discriminate.
  destruct sa, sb; reflexivity.
Qed.

Lemma add_finite_zero (s : bool) (m : positive) (e : Z) (z : F32.float) :
  F32.is_zero z = true → F32.add (S754_finite s m e) z = S754_finite s m e.
Proof. destruct z; try discriminate. reflexivity. Qed.

End F32Props.

(** ** The identity filter *)

Module IdentityProps.
Import Block Mem Sosfilt Model MemProps BiquadProps CascadeProps ChannelProps F32Props.

(** One sample through the identity section: a number comes out as it
    went in, up to the sign of a zero, and the state stays a pair of
    zeros. *)
Lemma identity_step (k : sos) (w : float * float) (x : float) :
  is_identity k → cleared w → ordinary x →
  let y := F32.add (F32.mul (b0 k) x) w.1 in
  let w1 := F32.add (F32.add (F32.mul (b1 k) x) (F32.mul (na1 k) y)) w.2 in
  let w2 := F32.add (F32.mul (b2 k) x) (F32.mul (na2 k) y) in
  reproduces x y ∧ ordinary y ∧ cleared (w1, w2).
Proof.
  intros (Hb0 & Hb1 & Hb2 & Ha1 & Ha2) [Hw1 Hw2] [Hfin Hval]. cbv zeta.
  rewrite Hb0.
  assert (Hy : reproduces x (F32.add (F32.mul F32.one x) w.1)
               ∧ ordinary (F32.add (F32.mul F32.one x) w.1)).
  { unfold reproduces, ordinary. destruct x as [s| | |s m e]; try discriminate.
    - rewrite mul_one_zero.
      destruct w.1 as [s1| | |]; try discriminate.
      destruct s, s1; cbn; auto.
    - rewrite mul_one_finite by exact Hval. rewrite add_finite_zero by exact Hw1.
      auto. }
  destruct Hy as [Hrep Hord]. split; [exact Hrep|]. split; [exact Hord|].
  destruct Hord as [Hyfin _].
  split; cbn [fst snd]; repeat apply add_zero_zero;
    try apply mul_zero_finite; assumption.
Qed.

Lemma biquad_run_identity (k : sos) (xs : list float) :
  is_identity k → Forall ordinary xs →
  ∀ w, cleared w →
    Forall2 reproduces xs (biquad_run k w xs).1
    ∧ Forall ordinary (biquad_run k w xs).1
    ∧ cleared (biquad_run k w xs).2.
Proof.
  intros Hk. induction 1 as [|x xs Hx _ IH]; intros w Hw.
  - cbn. auto.
  - rewrite biquad_run_cons. cbv zeta. cbn [fst snd].
    destruct (identity_step k w x Hk Hw Hx) as (Hrep & Hord & Hw').
    destruct (IH _ Hw') as (Hreps & Hords & Hfinal).
    split; [constructor; assumption|].
    split; [constructor; assumption | exact Hfinal].
Qed.

Lemma reproduces_trans (x y z : float) :
  reproduces x y → reproduces y z → reproduces x z.
Proof.
  unfold reproduces. intros [-> | [-> ->]] [-> | [Hy ->]]; auto; discriminate.
Qed.

Lemma Forall2_reproduces_refl (xs : list float) : Forall2 reproduces xs xs.
Proof. induction xs; constructor; [left; reflexivity | assumption]. Qed.

Lemma Forall2_reproduces_trans (xs ys zs : list float) :
  Forall2 reproduces xs ys → Forall2 reproduces ys zs → Forall2 reproduces xs zs.
Proof.
  intros Hxy. revert zs. induction Hxy as [|x y xs ys Hxy _ IH]; intros zs Hyz.
  - inversion Hyz. constructor.
  - inversion Hyz as [|? z ? zs' Hyz1 Hyz2]; subst. constructor; [|auto].
    eapply reproduces_trans; eassumption.
Qed.

Lemma cascade_run_identity (ks : list sos) :
  Forall is_identity ks →
  ∀ ws xs, Forall cleared ws → Forall ordinary xs →
    Forall2 reproduces xs (cascade_run ks ws xs).1
    ∧ Forall ordinary (cascade_run ks ws xs).1
    ∧ Forall cleared (cascade_run ks ws xs).2.
Proof.
  induction 1 as [|k ks Hk _ IH]; intros [|w ws] xs Hws Hxs;
    try solve [cbn; auto using Forall2_reproduces_refl].
  rewrite cascade_run_cons. cbn [fst snd].
  apply Forall_cons in Hws as [Hw Hws].
  destruct (biquad_run_identity k xs Hk Hxs w Hw) as (Hrep & Hord & Hw').
  destruct (IH ws _ Hws Hord) as (Hreps & Hords & Hfinal).
  split; [eapply Forall2_reproduces_trans; eassumption|].
  split; [assumption | constructor; assumption].
Qed.

Lemma sosfilt_run_identity (kss : list (list sos)) :
  Forall (Forall is_identity) kss →
  ∀ wss xss,
    length kss = length xss → length wss = length xss →
    Forall (Forall cleared) wss → Forall (Forall ordinary) xss →
    Forall2 (Forall2 reproduces) xss (sosfilt_run kss wss xss).1
    ∧ Forall (Forall cleared) (sosfilt_run kss wss xss).2.
Proof.
  induction 1 as [|ks kss Hks _ IH]; intros [|ws wss] [|xs xss] Hlk Hlw Hws Hxs;
    try discriminate; [cbn; split; constructor..|].
  rewrite sosfilt_run_cons. cbn [fst snd].
  injection Hlk as Hlk. injection Hlw as Hlw.
  apply Forall_cons in Hws as [Hw Hws]. apply Forall_cons in Hxs as [Hx Hxs].
  destruct (cascade_run_identity ks Hks ws xs Hw Hx) as (Hrep & _ & Hw').
  destruct (IH wss xss Hlk Hlw Hws Hxs) as [Hreps Hfinal].
  split; constructor; assumption.
Qed.

Section Kernel.
Context `{Build}.

(** C6, as the code has it. A validated instance whose sections are all
    the identity and whose states are all zeros, run on planes of numbers
    (no infinity, no NaN), returns with every output sample reproducing
    its input sample bit for bit, except that [-0.0f] may come out as
    [+0.0f], and with every state value a zero. *)
Theorem identity_cascade (addr : Z) (self : spark_sosfilt_f32_t) (m : mem)
    (kss : list (list sos)) (wss : list (list (float * float)))
    (xss : list (list float)) :
  spark_block_validate (Some (addr, header self)) required_flags = 0 →
  coefficients self ≠ 0 → states self ≠ 0 → 0 < n_stages self →
  layout self m kss wss xss →
  Forall (Forall is_identity) kss →
  Forall (Forall cleared) wss →
  Forall (Forall ordinary) xss →
  ∃ (m' : mem) (yss : list (list float)) (wss' : list (list (float * float))),
    spark_sosfilt_f32 (Some (addr, self)) m = Ok m'
    ∧ array_at m' (base (output (header self))) (concat yss)
    ∧ Forall2 (Forall2 reproduces) xss yss
    ∧ array_at m' (states self) (wss' ≫= states_cells)
    ∧ length (wss' ≫= states_cells) = length (wss ≫= states_cells)
    ∧ Forall (Forall cleared) wss'.
Proof.
  intros Hval Hc Hs HS Hlay Hkss Hwss Hxss.
  exists (write_array (states self) ((sosfilt_run kss wss xss).2 ≫= states_cells)
            (write_array (base (output (header self)))
               (concat (sosfilt_run kss wss xss).1) m)),
         (sosfilt_run kss wss xss).1, (sosfilt_run kss wss xss).2.
  split; [apply KernelRefinement.sosfilt_refines; assumption|].
  destruct Hlay as [HC Hlk Hlw HFs HSk HSw Hspan Hk Hw Hx Hout Hord Hko Hkw Hwo Hwi].
  destruct (sosfilt_run_identity kss Hkss wss xss Hlk Hlw Hwss Hxss) as [Hrep Hclr].
  destruct (sosfilt_run_planes _ kss wss xss Hlk Hlw HFs) as [Hny HFy].
  destruct (sosfilt_run_states _ kss wss xss Hlk Hlw HSw) as [Hnw HSw'].
  pose proof (length_concat_planes _ _ HFy) as Hlen_y.
  pose proof (length_states_planes _ _ HSw') as Hlen_w'.
  pose proof (length_states_planes _ _ HSw) as Hlen_w.
  rewrite Hny, HC in Hlen_y. rewrite Hnw, HC in Hlen_w'. rewrite Hlw, HC in Hlen_w.
  split; [|split; [exact Hrep | split; [apply array_at_write_array | split; [lia | exact Hclr]]]].
  apply array_at_write_array_ne; [apply array_at_write_array|].
  rewrite Hlen_y, Hlen_w'. exact Hwo.
Qed.

End Kernel.

Import Examples.

Lemma identity_cascade_witness :
  ∃ (m' : mem) (yss : list (list float)) (wss' : list (list (float * float))),
    spark_sosfilt_f32 (H := lp64_release) (Some (64, mono_instance))
      (mono_memory three F32.neg_zero) = Ok m'
    ∧ array_at m' 110 (concat yss)
    ∧ Forall2 (Forall2 reproduces) [[three; F32.neg_zero]] yss
    ∧ array_at m' 300 (wss' ≫= states_cells)
    ∧ length (wss' ≫= states_cells) = 2%nat
    ∧ Forall (Forall cleared) wss'.
Proof.
  apply (identity_cascade (H := lp64_release) 64 mono_instance
           (mono_memory three F32.neg_zero) [[identity_sos]]
           [[(F32.pos_zero, F32.pos_zero)]] [[three; F32.neg_zero]]).
  - reflexivity.
  - discriminate.
  - discriminate.
  - reflexivity.
  - apply (KernelRefinement.mono_layout identity_sos three F32.neg_zero).
  - repeat constructor.
  - repeat constructor.
  - repeat constructor.
Defined.

(** C6, as stated, fails on the code. The one-stage identity filter with
    cleared state does not reproduce the sample [-0.0f]: it emits
    [+0.0f]. Fed an infinity, it emits a NaN for the next sample, [1.0f],
    and is left with NaN, not zero, in its state. *)
Lemma identity_not_bit_exact :
  (peek (spark_sosfilt_f32 (H := lp64_release) (Some (64, mono_instance))
           (mono_memory F32.neg_zero F32.one)) 110
   ≠ mono_memory F32.neg_zero F32.one !! 100)
  ∧ (peek (spark_sosfilt_f32 (H := lp64_release) (Some (64, mono_instance))
             (mono_memory F32.pos_inf F32.one)) 111
     ≠ mono_memory F32.pos_inf F32.one !! 101)
  ∧ peek (spark_sosfilt_f32 (H := lp64_release) (Some (64, mono_instance))
            (mono_memory F32.neg_zero F32.one)) 110 = Some F32.pos_zero
  ∧ peek (spark_sosfilt_f32 (H := lp64_release) (Some (64, mono_instance))
            (mono_memory F32.pos_inf F32.one)) 111 = Some F32.nan
  ∧ peek (spark_sosfilt_f32 (H := lp64_release) (Some (64, mono_instance))
            (mono_memory F32.pos_inf F32.one)) 300 = Some F32.nan.
Proof. repeat split; vm_compute; first [reflexivity | discriminate]. Qed.

End IdentityProps.
